(** * hydrophone: [pkg/common/args.go]

    A shallow embedding of the argument loader [InitArgs] and of the
    pre-flight check [ValidateArgs], together with the parts of the Go
    standard library they call ([strconv.ParseInt], package [flag],
    [os.IsNotExist], package [log]).

    Conventions.
    - A Go [string] is a [string]; a byte is an [ascii]; Go's [int] is a
      [Z] (64-bit platform: every value the code stores in an [int] comes
      from a default or from [strconv.ParseInt s 0 64]).
    - A Go result pair [(T, error)] keeps its shape: the error component is
      an [option error], [None] standing for [nil].
    - [InitArgs] mutates the local [cfg] through the pointers it hands to
      the flag set; both live in one explicit memory [Mem].
    - [ValidateArgs] talks to the cluster, the logger and the file system;
      every such call is recorded, in program order, in a trace of
      [Event]s, and the answers of the outside world are read from the
      [Client] and the [FileSystem] the call is given.
    - Pointer parameters ([client], [config], [cfg]) are taken to be
      non-nil, as every caller passes them. *)

From Stdlib Require Import Ascii String.
From Equations Require Import Equations.
From stdpp Require Import gmap strings pretty.

Open Scope string_scope.
Open Scope Z_scope.

(** ** Outcomes of a Go computation and the monad that threads them *)

(** A computation over a state [S] either runs to its end with a value,
    or stops the whole process ([os.Exit]), or panics. *)
Inductive Outcome (S A : Type) : Type :=
| Done (a : A) (s : S)
| Exited (code : Z) (s : S)
| Panicked (s : S).
Arguments Done {S A} a s.
Arguments Exited {S A} code s.
Arguments Panicked {S A} s.

Definition M (S A : Type) : Type := S -> Outcome S A.

#[global] Instance M_ret {S} : MRet (M S) := fun A a s => Done a s.

#[global] Instance M_bind {S} : MBind (M S) := fun A B k m s =>
  match m s with
  | Done a s' => k a s'
  | Exited code s' => Exited code s'
  | Panicked s' => Panicked s'
  end.

Definition get {S} : M S S := fun s => Done s s.
Definition modify {S} (f : S -> S) : M S unit := fun s => Done tt (f s).
Definition exit {S A} (code : Z) : M S A := fun s => Exited code s.
Definition panic {S A} : M S A := fun s => Panicked s.

(** A value together with the equation that produced it, for definitions
    by well-founded recursion that branch on a call. *)
Definition inspect {A} (a : A) : {b | a = b} := exist _ a eq_refl.

(** ** Go's [error] values *)

(** The [syscall.Errno] values that matter to a [stat] or a [mkdir]. *)
Inductive errno : Type := ENOENT | EACCES | ENOTDIR | EEXIST | EIO | EROFS.

(** The dynamic types behind the [error] interface that this code meets:
    [errors.New]/[fmt.Errorf] texts, the sentinel [fs.ErrNotExist], a bare
    [syscall.Errno], and [*fs.PathError] wrapping another error. *)
Inductive error : Type :=
| errorString (s : string)
| ErrNotExist
| Errno (e : errno)
| PathError (Op Path : string) (Err : error).

Definition errno_Error (e : errno) : string :=
  match e with
  | ENOENT => "no such file or directory"
  | EACCES => "permission denied"
  | ENOTDIR => "not a directory"
  | EEXIST => "file exists"
  | EIO => "input/output error"
  | EROFS => "read-only file system"
  end.

(** [err.Error()] *)
Fixpoint Error (err : error) : string :=
  match err with
  | errorString s => s
  | ErrNotExist => "file does not exist"
  | Errno e => errno_Error e
  | PathError op path e => op ++ " " ++ path ++ ": " ++ Error e
  end.

(** ** [strconv.ParseInt] *)

Module strconv.

Inductive NumError : Type := ErrSyntax | ErrRange | ErrBase | ErrBitSize.

Definition IntSize : Z := 64.
Definition maxUint64 : Z := 2 ^ 64 - 1.

Definition byte (c : ascii) : Z := Z.of_N (N_of_ascii c).

(** [lower(c) = c | ('x' - 'X')] *)
Definition lower (c : ascii) : Z := Z.lor (byte c) (byte "x" - byte "X").

(** The digit loop of [ParseUint]: [inl (n, underscores)] when the bytes
    are used up, [inr (v, err)] when the loop returns early. *)
Fixpoint ParseUint_loop (base : Z) (base0 : bool) (cutoff maxVal : Z)
         (s : string) (n : Z) (underscores : bool)
  : (Z * bool) + (Z * NumError) :=
  match s with
  | EmptyString => inl (n, underscores)
  | String c s' =>
      if (byte c =? byte "_") && base0 then
        ParseUint_loop base base0 cutoff maxVal s' n true
      else
        let d : option Z :=
          if (byte "0" <=? byte c) && (byte c <=? byte "9") then
            Some (byte c - byte "0")
          else if (byte "a" <=? lower c) && (lower c <=? byte "z") then
            Some (lower c - byte "a" + 10)
          else None in
        match d with
        | None => inr (0, ErrSyntax)
        | Some d =>
            if d >=? base then inr (0, ErrSyntax)
            else if n >=? cutoff then inr (maxVal, ErrRange)
            else
              let n := n * base in
              let n1 := n + d in
              (* [n1 < n] is the wrap-around test of the uint64 sum *)
              if (n1 >? maxUint64) || (n1 >? maxVal) then inr (maxVal, ErrRange)
              else ParseUint_loop base base0 cutoff maxVal s' n1 underscores
        end
  end.

(** [underscoreOK]: underscores may only separate digits (or follow the
    base prefix). [saw] is one of the bytes [^], [0], [_], [!]. *)
Fixpoint underscoreOK_loop (hex : bool) (saw : ascii) (s : string) : bool :=
  match s with
  | EmptyString => negb (byte saw =? byte "_")
  | String c s' =>
      if ((byte "0" <=? byte c) && (byte c <=? byte "9"))
         || (hex && (byte "a" <=? lower c) && (lower c <=? byte "f"))
      then underscoreOK_loop hex "0" s'
      else if byte c =? byte "_" then
        if negb (byte saw =? byte "0") then false
        else underscoreOK_loop hex "_" s'
      else if byte saw =? byte "_" then false
      else underscoreOK_loop hex "!" s'
  end.

Definition underscoreOK (s : string) : bool :=
  (* optional sign *)
  let s :=
    match s with
    | String c s' => if (byte c =? byte "-") || (byte c =? byte "+") then s' else s
    | EmptyString => s
    end in
  (* optional base prefix *)
  match s with
  | String c0 (String c1 s2) =>
      if (byte c0 =? byte "0")
         && ((lower c1 =? byte "b") || (lower c1 =? byte "o") || (lower c1 =? byte "x"))
      then underscoreOK_loop (lower c1 =? byte "x") "0" s2
      else underscoreOK_loop false "^" s
  | _ => underscoreOK_loop false "^" s
  end.

Definition ParseUint (s : string) (base bitSize : Z) : Z * option NumError :=
  if String.eqb s "" then (0, Some ErrSyntax)
  else
    let base0 := base =? 0 in
    let s0 := s in
    let prefix : option (Z * string) :=
      if (2 <=? base) && (base <=? 36) then Some (base, s)
      else if base =? 0 then
        match s with
        | String c0 s1 =>
            if byte c0 =? byte "0" then
              match s1 with
              | String c1 (String _ _ as s2) =>   (* len(s) >= 3 *)
                  if lower c1 =? byte "b" then Some (2, s2)
                  else if lower c1 =? byte "o" then Some (8, s2)
                  else if lower c1 =? byte "x" then Some (16, s2)
                  else Some (8, s1)
              | _ => Some (8, s1)
              end
            else Some (10, s)
        | EmptyString => Some (10, s)
        end
      else None in
    match prefix with
    | None => (0, Some ErrBase)
    | Some (base, s) =>
        let bitSize := if bitSize =? 0 then IntSize else bitSize in
        if (bitSize <? 0) || (bitSize >? 64) then (0, Some ErrBitSize)
        else
          let cutoff := maxUint64 / base + 1 in
          let maxVal := 2 ^ bitSize - 1 in
          match ParseUint_loop base base0 cutoff maxVal s 0 false with
          | inr (v, err) => (v, Some err)
          | inl (n, underscores) =>
              if underscores && negb (underscoreOK s0) then (0, Some ErrSyntax)
              else (n, None)
          end
    end.

Definition ParseInt (s : string) (base bitSize : Z) : Z * option NumError :=
  if String.eqb s "" then (0, Some ErrSyntax)
  else
    (* pick off leading sign *)
    let s0 := s in
    let '(neg, s) :=
      match s with
      | String c s' =>
          if byte c =? byte "+" then (false, s')
          else if byte c =? byte "-" then (true, s')
          else (false, s)
      | EmptyString => (false, s)
      end in
    (* convert unsigned and check range *)
    let '(un, err) := ParseUint s base bitSize in
    match err with
    | Some ErrSyntax | Some ErrBase | Some ErrBitSize => (0, err)
    | _ =>
        let bitSize := if bitSize =? 0 then IntSize else bitSize in
        let cutoff := 2 ^ (bitSize - 1) in
        if negb neg && (un >=? cutoff) then (cutoff - 1, Some ErrRange)
        else if neg && (un >? cutoff) then (- cutoff, Some ErrRange)
        else (if neg then - un else un, None)
    end.

End strconv.

(** ** Go string primitives *)

(** [len(s)] *)
Definition len (s : string) : Z := Z.of_nat (String.length s).

(** [s[i]], read under a length guard; a NUL otherwise. *)
Definition byte_at (s : string) (i : nat) : ascii :=
  match String.get i s with Some c => c | None => zero end.

(** [s[i:]] and [s[:i]] *)
Definition slice_from (s : string) (i : nat) : string :=
  String.substring i (String.length s - i) s.
Definition slice_to (s : string) (i : nat) : string :=
  String.substring 0 i s.

(** ** The configuration record *)

(** [ArgConfig] stores the arguments passed when running the program. *)
Record ArgConfig : Type := {
  Focus : string;
  Skip : string;
  ConformanceImage : string;
  BusyboxImage : string;
  Kubeconfig : string;
  Parallel : Z;
  Verbosity : Z;
  OutputDir : string
}.

(** [var cfg ArgConfig]: the zero value. *)
Definition ArgConfig_zero : ArgConfig :=
  {| Focus := ""; Skip := ""; ConformanceImage := ""; BusyboxImage := "";
     Kubeconfig := ""; Parallel := 0; Verbosity := 0; OutputDir := "" |}.

(** The addresses [&cfg.Focus], [&cfg.Parallel], ... that [InitArgs] hands
    to the flag set: a pointer is the field it designates. *)
Inductive string_ptr : Type :=
| addr_Focus | addr_Skip | addr_ConformanceImage | addr_BusyboxImage
| addr_Kubeconfig | addr_OutputDir.

Inductive int_ptr : Type := addr_Parallel | addr_Verbosity.

Definition load_string (p : string_ptr) (cfg : ArgConfig) : string :=
  match p with
  | addr_Focus => Focus cfg
  | addr_Skip => Skip cfg
  | addr_ConformanceImage => ConformanceImage cfg
  | addr_BusyboxImage => BusyboxImage cfg
  | addr_Kubeconfig => Kubeconfig cfg
  | addr_OutputDir => OutputDir cfg
  end.

Definition load_int (p : int_ptr) (cfg : ArgConfig) : Z :=
  match p with
  | addr_Parallel => Parallel cfg
  | addr_Verbosity => Verbosity cfg
  end.

Definition store_string (p : string_ptr) (v : string) (cfg : ArgConfig) : ArgConfig :=
  let '{| Focus := f; Skip := s; ConformanceImage := ci; BusyboxImage := bi;
          Kubeconfig := k; Parallel := n; Verbosity := vb; OutputDir := o |} := cfg in
  match p with
  | addr_Focus => Build_ArgConfig v s ci bi k n vb o
  | addr_Skip => Build_ArgConfig f v ci bi k n vb o
  | addr_ConformanceImage => Build_ArgConfig f s v bi k n vb o
  | addr_BusyboxImage => Build_ArgConfig f s ci v k n vb o
  | addr_Kubeconfig => Build_ArgConfig f s ci bi v n vb o
  | addr_OutputDir => Build_ArgConfig f s ci bi k n vb v
  end.

Definition store_int (p : int_ptr) (v : Z) (cfg : ArgConfig) : ArgConfig :=
  let '{| Focus := f; Skip := s; ConformanceImage := ci; BusyboxImage := bi;
          Kubeconfig := k; Parallel := n; Verbosity := vb; OutputDir := o |} := cfg in
  match p with
  | addr_Parallel => Build_ArgConfig f s ci bi k v vb o
  | addr_Verbosity => Build_ArgConfig f s ci bi k n v o
  end.

(** ** Package [flag] *)

Module flag.

(** [Value]: the two implementations this program registers. A
    [*stringValue] and an [*intValue] are the pointers they were made
    from. Neither is a [boolFlag]. *)
Inductive Value : Type :=
| stringValue (p : string_ptr)
| intValue (p : int_ptr).

Record Flag : Type := {
  Name : string;      (* name as it appears on command line *)
  Usage : string;     (* help message *)
  value : Value;      (* value as set *)
  DefValue : string   (* default value (as text); for usage message *)
}.

Record FlagSet : Type := {
  parsed : bool;
  actual : gmap string Flag;
  formal : gmap string Flag;
  args : list string  (* arguments after flags *)
}.

(** What [InitArgs] and the flag set share: the variable [cfg] and the
    package-level [CommandLine]. *)
Record Mem : Type := {
  cfg : ArgConfig;
  CommandLine : FlagSet
}.

(** A process starts with an empty [CommandLine]. *)
Definition NewFlagSet : FlagSet :=
  {| parsed := false; actual := ∅; formal := ∅; args := [] |}.

Definition set_cfg (f : ArgConfig -> ArgConfig) (m : Mem) : Mem :=
  {| cfg := f (cfg m); CommandLine := CommandLine m |}.
Definition set_CommandLine (f : FlagSet -> FlagSet) (m : Mem) : Mem :=
  {| cfg := cfg m; CommandLine := f (CommandLine m) |}.
Definition set_args (a : list string) (f : FlagSet) : FlagSet :=
  {| parsed := parsed f; actual := actual f; formal := formal f; args := a |}.

(** The errors of [parseOne]: [ErrHelp] and the four [failf] calls, kept
    by kind and operands instead of rendered text. *)
Inductive failure : Type :=
| ErrHelp
| bad_flag_syntax (s : string)
| provided_but_not_defined (name : string)
| needs_an_argument (name : string)
| invalid_value (v name : string) (err : strconv.NumError).

(** [value.String()] *)
Definition Value_String (v : Value) (c : ArgConfig) : string :=
  match v with
  | stringValue p => load_string p c
  | intValue p => pretty (load_int p c)
  end.

(** [value.Set(s)]. An [*intValue] is assigned even when the text does
    not parse. *)
Definition Value_Set (v : Value) (s : string) : M Mem (option strconv.NumError) :=
  match v with
  | stringValue p =>
      modify (set_cfg (store_string p s));;
      mret None
  | intValue p =>
      let '(n, err) := strconv.ParseInt s 0 strconv.IntSize in
      modify (set_cfg (store_int p n));;
      mret err
  end.

(** [strings.Contains(name, "=")] *)
Fixpoint contains_equals (name : string) : bool :=
  match name with
  | EmptyString => false
  | String c name' => (strconv.byte c =? strconv.byte "=") || contains_equals name'
  end.

(** [CommandLine.Var(value, name, usage)] *)
Definition Var (v : Value) (name usage : string) : M Mem unit :=
  (* Flag must not start "-" or contain "=". *)
  if String.prefix "-" name then panic
  else if contains_equals name then panic
  else
    m ← get;
    (* Remember the default value as a string; it won't change. *)
    let flag := {| Name := name; Usage := usage; value := v;
                   DefValue := Value_String v (cfg m) |} in
    match formal (CommandLine m) !! name with
    | Some _ => panic   (* flag redefined *)
    | None =>
        modify (set_CommandLine (fun f =>
          {| parsed := parsed f; actual := actual f;
             formal := <[name := flag]> (formal f); args := args f |}))
    end.

(** [flag.StringVar(p, name, value, usage)] *)
Definition StringVar (p : string_ptr) (name val usage : string) : M Mem unit :=
  modify (set_cfg (store_string p val));;   (* newStringValue: *p = val *)
  Var (stringValue p) name usage.

(** [flag.IntVar(p, name, value, usage)] *)
Definition IntVar (p : int_ptr) (name : string) (val : Z) (usage : string) : M Mem unit :=
  modify (set_cfg (store_int p val));;      (* newIntValue: *p = val *)
  Var (intValue p) name usage.

(** The scan [for i := 1; i < len(name); i++ { if name[i] == '=' ... }]:
    the first index [i >= 1] holding an equals sign. *)
Fixpoint find_equals (name : string) (i : nat) (fuel : nat) : option nat :=
  match fuel with
  | O => None
  | S fuel' =>
      if Z.of_nat i <? len name then
        if strconv.byte (byte_at name i) =? strconv.byte "=" then Some i
        else find_equals name (S i) fuel'
      else None
  end.

(** [parseOne] parses one flag. It reports whether a flag was seen. *)
Definition parseOne : M Mem (bool * option failure) :=
  m ← get;
  let f := CommandLine m in
  match args f with
  | [] => mret (false, None)
  | s :: rest =>
      if (len s <? 2) || negb (strconv.byte (byte_at s 0) =? strconv.byte "-") then
        mret (false, None)
      else
        let minus2 := strconv.byte (byte_at s 1) =? strconv.byte "-" in
        let numMinuses := if minus2 then 2%nat else 1%nat in
        if minus2 && (len s =? 2) then
          (* "--" terminates the flags *)
          modify (set_CommandLine (set_args rest));;
          mret (false, None)
        else
          let name := slice_from s numMinuses in
          if (len name =? 0)
             || (strconv.byte (byte_at name 0) =? strconv.byte "-")
             || (strconv.byte (byte_at name 0) =? strconv.byte "=") then
            mret (false, Some (bad_flag_syntax s))
          else
            (* it's a flag. does it have an argument? *)
            modify (set_CommandLine (set_args rest));;
            let '(name, hasValue, val) :=
              match find_equals name 1 (String.length name) with
              | Some i => (slice_to name i, true, slice_from name (S i))
              | None => (name, false, "")
              end in
            match formal f !! name with
            | None =>
                if String.eqb name "help" || String.eqb name "h" then
                  (* special case for nice help message. *)
                  mret (false, Some ErrHelp)
                else mret (false, Some (provided_but_not_defined name))
            | Some flag =>
                (* It must have a value, which might be the next argument. *)
                let '(hasValue, val, rest') :=
                  match hasValue, rest with
                  | false, v :: rest' => (true, v, rest')
                  | _, _ => (hasValue, val, rest)
                  end in
                modify (set_CommandLine (set_args rest'));;
                if negb hasValue then
                  mret (false, Some (needs_an_argument name))
                else
                  err ← Value_Set (value flag) val;
                  match err with
                  | Some e => mret (false, Some (invalid_value val name e))
                  | None =>
                      modify (set_CommandLine (fun f =>
                        {| parsed := parsed f; actual := <[name := flag]> (actual f);
                           formal := formal f; args := args f |}));;
                      mret (true, None)
                  end
            end
  end.

(** The loop of [f.Parse] under [ExitOnError], the error handling of
    [CommandLine]:
    [for { seen, err := f.parseOne(); if seen { continue };
           if err == nil { break }; ... os.Exit ... }].
    Every round that sees a flag consumes at least one argument. The
    message and the usage text that a failing [parseOne] writes to standard
    error are not recorded; the exit status is. *)
Equations? Parse_loop (m : Mem) : Outcome Mem unit
  by wf (length (args (CommandLine m))) lt :=
Parse_loop m with inspect (parseOne m) := {
  | exist _ (Done (true, _) m') H => Parse_loop m'
  | exist _ (Done (false, None) m') H => Done tt m'
  | exist _ (Done (false, Some ErrHelp) m') H => Exited 0 m'   (* err == ErrHelp *)
  | exist _ (Done (false, Some _) m') H => Exited 2 m'
  | exist _ (Exited code m') H => Exited code m'
  | exist _ (Panicked m') H => Panicked m' }.
Proof.
  revert H. unfold parseOne, mbind, M_bind, get, modify, mret, M_ret, Value_Set.
  destruct m as [c [pd ac fo ar]]; simpl.
  repeat (case_match; simpl in *; simplify_eq);
    intros; cbv [mbind M_bind modify mret M_ret] in *; simplify_eq; simpl; lia.
Qed.

(** [f.Parse(arguments)] on [CommandLine] *)
Definition FlagSet_Parse (arguments : list string) : M Mem unit :=
  modify (set_CommandLine (fun f =>
    {| parsed := true; actual := actual f; formal := formal f; args := arguments |}));;
  Parse_loop.

(** [flag.Parse()]: [CommandLine.Parse(os.Args[1:])], errors ignored
    since [CommandLine] exits on error. *)
Definition Parse (os_Args : list string) : M Mem unit :=
  match os_Args with
  | [] => panic                 (* os.Args[1:] on an empty slice *)
  | _ :: arguments => FlagSet_Parse arguments
  end.

End flag.

(** ** [InitArgs] *)

(** What the process environment answers to [InitArgs]: the result of
    [os.Getwd()] and the argument vector [os.Args] (program name first). *)
Record Process : Type := {
  os_Getwd : string * option error;
  os_Args : list string
}.

(** [fmt.Errorf] with a format that has no verbs. *)
Definition fmt_Errorf (format : string) : error := errorString format.

(** The memory of a process that has not touched package [flag] yet: no
    other package has registered a flag on [CommandLine], and [InitArgs]
    is called once. *)
Definition process_start : flag.Mem :=
  {| flag.cfg := ArgConfig_zero; flag.CommandLine := flag.NewFlagSet |}.

(** The package-level constants [containerImage] and [busyboxImage] are
    declared in another file of package [common]; the development is
    parametric in them. *)
Class PackageConstants : Type := {
  containerImage : string;
  busyboxImage : string
}.

Section InitArgs.

Context {consts : PackageConstants}.

Definition InitArgs (proc : Process) : M flag.Mem (option ArgConfig * option error) :=
  modify (flag.set_cfg (fun _ => ArgConfig_zero));;          (* var cfg ArgConfig *)
  let '(outputDir, err) := os_Getwd proc in
  match err with
  | Some _ => mret (None, err)
  | None =>
      flag.StringVar addr_Focus "focus" ""
        "focus runs a specific e2e test. e.g. - sig-auth. allows regular expressions.";;
      flag.StringVar addr_Skip "skip" ""
        "skip specific tests. allows regular expressions.";;
      flag.StringVar addr_ConformanceImage "conformance-image" containerImage
        "image let's you select your conformance container image of your choice.";;
      flag.StringVar addr_BusyboxImage "busybox-image" busyboxImage
        "image let's you select an alternate busybox container image.";;
      flag.StringVar addr_Kubeconfig "kubeconfig" "" "path to the kubeconfig file.";;
      flag.IntVar addr_Parallel "parallel" 1 "number of parallel threads in test framework.";;
      flag.IntVar addr_Verbosity "verbosity" 4 "verbosity of test framework.";;
      flag.StringVar addr_OutputDir "output-dir" outputDir "directory for logs.";;
      flag.Parse (os_Args proc);;
      m ← get;
      if String.eqb (Focus (flag.cfg m)) "" then
        mret (None, Some (fmt_Errorf
          "missing --focus argument (use '[Conformance]' to run all conformance tests)"))
      else
        mret (Some (flag.cfg m), None)
  end.

(** [InitArgs] called in a fresh process. *)
Definition run_InitArgs (proc : Process)
  : Outcome flag.Mem (option ArgConfig * option error) :=
  InitArgs proc process_start.

(** The state of the memory when [InitArgs] stops, on whichever path. *)
Definition final_memory (proc : Process) : flag.Mem :=
  match run_InitArgs proc with
  | Done _ m | Exited _ m | Panicked m => m
  end.

(** An option is supplied when [flag.Parse] has set it while [InitArgs]
    ran: it is in Go's [f.actual], the flags that [flag.Visit] visits. *)
Definition supplied (proc : Process) (name : string) : bool :=
  match flag.actual (flag.CommandLine (final_memory proc)) !! name with
  | Some _ => true
  | None => false
  end.

(** The value of [cfg.Focus] when [InitArgs] stops. *)
Definition focus_after_parsing (proc : Process) : string :=
  Focus (flag.cfg (final_memory proc)).

(** The focus option is empty or unset. *)
Definition focus_empty_or_unset (proc : Process) : Prop :=
  supplied proc "focus" = false \/ focus_after_parsing proc = "".

(** The values of [cfg] once the eight flags are registered: the
    defaults, [wd] being the working directory. *)
Definition defaults (wd : string) : ArgConfig :=
  {| Focus := ""; Skip := ""; ConformanceImage := containerImage;
     BusyboxImage := busyboxImage; Kubeconfig := ""; Parallel := 1;
     Verbosity := 4; OutputDir := wd |}.

End InitArgs.


(** ** What [ValidateArgs] does to the outside world *)

(** One entry per call that leaves the function, in program order. *)
Inductive Event : Type :=
| EvServerVersion                        (* client.ClientSet.ServerVersion() *)
| EvLog (line : string)                  (* a message handed to package log *)
| EvStat (name : string)                 (* os.Stat(name) *)
| EvMkdirAll (path : string) (perm : Z). (* os.MkdirAll(path, perm) *)

Definition Trace : Type := list Event.

Definition emit (e : Event) : M Trace unit := modify (fun t => (t ++ [e])%list).

(** The answers of the file system: the error of [os.Stat(name)] (its
    [FileInfo] is discarded by the caller) and of [os.MkdirAll(path, perm)]. *)
Record FileSystem : Type := {
  Stat_answer : string -> option error;
  MkdirAll_answer : string -> Z -> option error
}.

Definition os_Stat (fs : FileSystem) (name : string) : M Trace (option error) :=
  emit (EvStat name);;
  mret (Stat_answer fs name).

Definition os_MkdirAll (fs : FileSystem) (path : string) (perm : Z) : M Trace (option error) :=
  emit (EvMkdirAll path perm);;
  mret (MkdirAll_answer fs path perm).

(** [os.IsNotExist(err)]: unwrap one [*PathError], then compare with
    [ErrNotExist] or, for an [Errno], with [ENOENT]. [nil] is not a
    not-exist error. *)
Definition underlyingError (err : error) : error :=
  match err with
  | PathError _ _ e => e
  | _ => err
  end.

Definition os_IsNotExist (err : option error) : bool :=
  match err with
  | None => false
  | Some err =>
      match underlyingError err with
      | ErrNotExist => true
      | Errno ENOENT => true
      | _ => false
      end
  end.

(** Package [log] with the standard logger: [Printf] hands one message to
    the logger; [Fatal] and [Fatalf] do the same and then call
    [os.Exit(1)]. The argument is the formatted message (the time stamp the
    logger puts in front is not part of it). *)
Definition log_Printf (msg : string) : M Trace unit := emit (EvLog msg).

Definition log_Fatal {A} (msg : string) : M Trace A :=
  emit (EvLog msg);;
  exit 1.

(** The octal literal [0755]. *)
Definition perm_0755 : Z := 7 * 64 + 5 * 8 + 5.

(** [rest.Config], of which only [Host] is read. *)
Record rest_Config : Type := { Host : string }.

(** [version.Info] belongs to k8s.io/apimachinery and the [%#v] verb to
    package [fmt]: the type and its Go-syntax rendering are parameters. *)
Class VersionPackage : Type := {
  version_Info : Type;
  GoSyntax : version_Info -> string
}.

Section ValidateArgs.

Context {vp : VersionPackage}.

(** [client.Client], declared in [pkg/client]: only its [ClientSet] and
    the result pair of the [ServerVersion()] call on it are used. *)
Record Clientset : Type := {
  ServerVersion_answer : option version_Info * option error
}.
Record Client : Type := { ClientSet : Clientset }.

Definition ServerVersion (c : Clientset)
  : M Trace (option version_Info * option error) :=
  emit EvServerVersion;;
  mret (ServerVersion_answer c).

Definition ValidateArgs (fs : FileSystem) (err : option error) (client : Client)
           (config : rest_Config) (cfg : ArgConfig) : M Trace unit :=
  '(serverVersion, err) ← ServerVersion (ClientSet client);
  match err with
  | Some e => log_Fatal ("Error fetching server version: " ++ Error e)
  | None => mret tt
  end;;
  log_Printf ("API endpoint : " ++ Host config);;
  match serverVersion with
  | None => panic                         (* *serverVersion on a nil pointer *)
  | Some v => log_Printf ("Server version : " ++ GoSyntax v)
  end;;
  log_Printf ("Running tests : '" ++ Focus cfg ++ "'");;
  (if negb (String.eqb (Skip cfg) "") then
     log_Printf ("Skipping tests : '" ++ Skip cfg ++ "'")
   else mret tt);;
  log_Printf ("Using conformance image : '" ++ ConformanceImage cfg ++ "'");;
  log_Printf ("Using busybox image : '" ++ BusyboxImage cfg ++ "'");;
  log_Printf ("Test framework will start '" ++ pretty (Parallel cfg)
              ++ "' threads and use verbosity '" ++ pretty (Verbosity cfg) ++ "'");;
  (err ← os_Stat fs (OutputDir cfg);
   if os_IsNotExist err then
     err ← os_MkdirAll fs (OutputDir cfg) perm_0755;
     match err with
     | Some e =>
         log_Fatal ("Error creating output directory [" ++ OutputDir cfg
                    ++ "] : " ++ Error e)
     | None => mret tt
     end
   else mret tt).

(** A call of [ValidateArgs], observed from an empty trace. *)
Definition run_ValidateArgs (fs : FileSystem) (err : option error) (client : Client)
           (config : rest_Config) (cfg : ArgConfig) : Outcome Trace unit :=
  ValidateArgs fs err client config cfg [].

End ValidateArgs.

(** The trace of an outcome, whichever way the call ended. *)
Definition trace_of {A} (o : Outcome Trace A) : Trace :=
  match o with
  | Done _ t | Exited _ t | Panicked t => t
  end.

(** The log messages of a trace, in order. *)
Definition log_lines (t : Trace) : list string :=
  omap (fun e => match e with EvLog l => Some l | _ => None end) t.

(** The directories a trace tried to create. *)
Definition mkdir_calls (t : Trace) : list (string * Z) :=
  omap (fun e => match e with EvMkdirAll p m => Some (p, m) | _ => None end) t.

(** What a caller can tell of an outcome: the returned value, the exit
    status, or a panic. *)
Inductive Result (A : Type) : Type :=
| Returns (a : A)
| Exits (code : Z)
| Panics.
Arguments Returns {A} a.
Arguments Exits {A} code.
Arguments Panics {A}.

Definition result {S A} (o : Outcome S A) : Result A :=
  match o with
  | Done a _ => Returns a
  | Exited code _ => Exits code
  | Panicked _ => Panics
  end.

(** The error [InitArgs] builds when [cfg.Focus] is empty. *)
Definition missing_focus : error :=
  errorString "missing --focus argument (use '[Conformance]' to run all conformance tests)".

(** The cell a flag value points to, read and written without regard to
    its type. *)
Definition load (v : flag.Value) (c : ArgConfig) : string + Z :=
  match v with
  | flag.stringValue p => inl (load_string p c)
  | flag.intValue p => inr (load_int p c)
  end.

(** [assigned v s c c']: [value.Set(s)] succeeded and turned [c] into [c']. *)
Definition assigned (v : flag.Value) (s : string) (c c' : ArgConfig) : Prop :=
  match v with
  | flag.stringValue p => c' = store_string p s c
  | flag.intValue p =>
      exists n, strconv.ParseInt s 0 strconv.IntSize = (n, None) /\ c' = store_int p n c
  end.

(** The flag names of [InitArgs] and the cells they are bound to. *)
Definition flag_table : list (string * flag.Value) :=
  [ ("focus", flag.stringValue addr_Focus);
    ("skip", flag.stringValue addr_Skip);
    ("conformance-image", flag.stringValue addr_ConformanceImage);
    ("busybox-image", flag.stringValue addr_BusyboxImage);
    ("kubeconfig", flag.stringValue addr_Kubeconfig);
    ("parallel", flag.intValue addr_Parallel);
    ("verbosity", flag.intValue addr_Verbosity);
    ("output-dir", flag.stringValue addr_OutputDir) ].

(** [F] holds exactly the flags of [flag_table]. *)
Definition registered_table (F : gmap string flag.Flag) : Prop :=
  (forall N fl, F !! N = Some fl -> (N, flag.value fl) ∈ flag_table)
  /\ (forall N v, (N, v) ∈ flag_table -> exists fl, F !! N = Some fl /\ flag.value fl = v).

(** The memory in which [InitArgs] calls [flag.Parse], and then the loop. *)
Definition parse_memory (c : ArgConfig) (F : gmap string flag.Flag)
           (pd : bool) (a : list string) : flag.Mem :=
  {| flag.cfg := c;
     flag.CommandLine := {| flag.parsed := pd; flag.actual := ∅;
                            flag.formal := F; flag.args := a |} |}.

(** What the parse loop keeps true of the memory: the registered flags
    stay, a flag that was not set still holds the value it was registered
    with ([c0]), and [cfg.Parallel], once set, is a number that
    [strconv.ParseInt] produced. *)
Definition parse_invariant (c0 : ArgConfig) (F : gmap string flag.Flag)
           (m : flag.Mem) : Prop :=
  flag.formal (flag.CommandLine m) = F
  /\ (forall N fl, F !! N = Some fl ->
                  flag.actual (flag.CommandLine m) !! N = None ->
                  load (flag.value fl) (flag.cfg m) = load (flag.value fl) c0)
  /\ (is_Some (flag.actual (flag.CommandLine m) !! "parallel") ->
      exists s, strconv.ParseInt s 0 strconv.IntSize = (Parallel (flag.cfg m), None)).

(** Values for the two package constants, for the examples below (the
    first is the default that the comment on [ConformanceImage] names). *)
Definition example_constants : PackageConstants :=
  {| containerImage := "registry.k8s.io/conformance:v1.28.0";
     busyboxImage := "registry.k8s.io/e2e-test-images/busybox:1.36.1-1" |}.

(** The informational lines of a run that got the version [version] from
    the cluster at [host], in the order of the program text. *)
Definition informational_lines (host version : string) (cfg : ArgConfig) : list string :=
  [ "API endpoint : " ++ host;
    "Server version : " ++ version;
    "Running tests : '" ++ Focus cfg ++ "'" ]
  ++ (if String.eqb (Skip cfg) "" then [] else [ "Skipping tests : '" ++ Skip cfg ++ "'" ])
  ++ [ "Using conformance image : '" ++ ConformanceImage cfg ++ "'";
       "Using busybox image : '" ++ BusyboxImage cfg ++ "'";
       "Test framework will start '" ++ pretty (Parallel cfg)
         ++ "' threads and use verbosity '" ++ pretty (Verbosity cfg) ++ "'" ].

(** A log line that announces skipped tests. *)
Definition is_skipping_line (line : string) : bool :=
  String.prefix "Skipping tests" line.

(** The two fatal messages. *)
Definition version_failure_line (e : error) : string :=
  "Error fetching server version: " ++ Error e.
Definition mkdir_failure_line (dir : string) (e : error) : string :=
  "Error creating output directory [" ++ dir ++ "] : " ++ Error e.

(** The events of a call up to and including the existence check, once
    the cluster has answered with a version rendered as [version]. *)
Definition reached_stat (host version : string) (cfg : ArgConfig) : Trace :=
  ([EvServerVersion]
   ++ map EvLog (informational_lines host version cfg)
   ++ [EvStat (OutputDir cfg)])%list.

(** A version package for the examples: the version is its own text. *)
Definition example_version : VersionPackage :=
  {| version_Info := string; GoSyntax := fun v => v |}.

(** ** Example runs *)

(** Processes started in [/home/ci/run], and one whose working directory
    is gone. *)
Definition started_with (arguments : list string) : Process :=
  {| os_Getwd := ("/home/ci/run", None); os_Args := "hydrophone" :: arguments |}.

Definition getwd_error : error := errorString "getwd: no such file or directory".

Definition proc_no_cwd : Process :=
  {| os_Getwd := ("", Some getwd_error); os_Args := ["hydrophone"] |}.

Definition proc_no_flags : Process := started_with [].
Definition proc_conformance : Process := started_with ["--focus=[Conformance]"].
Definition proc_unknown_flag : Process := started_with ["--bogus"].
Definition proc_focus_then_unknown : Process :=
  started_with ["--focus=[Conformance]"; "--bogus"].
Definition proc_parallel_zero : Process :=
  started_with ["--focus=[Conformance]"; "--parallel=0"].
Definition proc_parallel_four : Process :=
  started_with ["--focus"; "sig-apps"; "-parallel"; "4"; "--skip=[Serial]"].

(** Records as [InitArgs] returns them for two of these processes. *)
Definition cfg_conformance : ArgConfig :=
  {| Focus := "[Conformance]"; Skip := "";
     ConformanceImage := "registry.k8s.io/conformance:v1.28.0";
     BusyboxImage := "registry.k8s.io/e2e-test-images/busybox:1.36.1-1";
     Kubeconfig := ""; Parallel := 1; Verbosity := 4; OutputDir := "/home/ci/run" |}.

Definition cfg_parallel_zero : ArgConfig :=
  {| Focus := "[Conformance]"; Skip := "";
     ConformanceImage := "registry.k8s.io/conformance:v1.28.0";
     BusyboxImage := "registry.k8s.io/e2e-test-images/busybox:1.36.1-1";
     Kubeconfig := ""; Parallel := 0; Verbosity := 4; OutputDir := "/home/ci/run" |}.

Definition cfg_parallel_four : ArgConfig :=
  {| Focus := "sig-apps"; Skip := "[Serial]";
     ConformanceImage := "registry.k8s.io/conformance:v1.28.0";
     BusyboxImage := "registry.k8s.io/e2e-test-images/busybox:1.36.1-1";
     Kubeconfig := ""; Parallel := 4; Verbosity := 4; OutputDir := "/home/ci/run" |}.

(** A record that asks for a fresh output directory, without and with a
    skip expression. *)
Definition cfg_fresh_dir : ArgConfig :=
  {| Focus := "[Conformance]"; Skip := "";
     ConformanceImage := "registry.k8s.io/conformance:v1.28.0";
     BusyboxImage := "registry.k8s.io/e2e-test-images/busybox:1.36.1-1";
     Kubeconfig := ""; Parallel := 1; Verbosity := 4; OutputDir := "/tmp/out/logs" |}.

Definition cfg_skip_serial : ArgConfig :=
  {| Focus := "[Conformance]"; Skip := "[Serial]";
     ConformanceImage := "registry.k8s.io/conformance:v1.28.0";
     BusyboxImage := "registry.k8s.io/e2e-test-images/busybox:1.36.1-1";
     Kubeconfig := ""; Parallel := 1; Verbosity := 4; OutputDir := "/tmp/out/logs" |}.

(** A cluster that answers and one that cannot be reached. *)
Definition connection_refused : error :=
  errorString "dial tcp 127.0.0.1:6443: connect: connection refused".

Definition cluster_up : @Client example_version :=
  {| ClientSet := {| ServerVersion_answer := (Some ("v1.28.0" : @version_Info example_version), None) |} |}.

Definition cluster_down : @Client example_version :=
  {| ClientSet := {| ServerVersion_answer := (None, Some connection_refused) |} |}.

Definition local_config : rest_Config := {| Host := "https://127.0.0.1:6443" |}.

(** File systems: the directory is absent and can be made; it is there;
    the check is refused; the directory is absent and cannot be made. *)
Definition fs_absent : FileSystem :=
  {| Stat_answer := fun name => Some (PathError "stat" name (Errno ENOENT));
     MkdirAll_answer := fun _ _ => None |}.

Definition fs_present : FileSystem :=
  {| Stat_answer := fun _ => None;
     MkdirAll_answer := fun _ _ => None |}.

Definition fs_denied : FileSystem :=
  {| Stat_answer := fun name => Some (PathError "stat" name (Errno EACCES));
     MkdirAll_answer := fun _ _ => None |}.

Definition fs_read_only : FileSystem :=
  {| Stat_answer := fun name => Some (PathError "stat" name (Errno ENOENT));
     MkdirAll_answer := fun path _ => Some (PathError "mkdir" path (Errno EROFS)) |}.

(** ** Options as they are written on the command line *)

(** The two ways [parseOne] lets a value be given, [-name=value] and
    [-name value], each with one or two minus signs. *)
Inductive spelling : Type :=
| equals_form (two : bool)
| separate_form (two : bool).

Definition dashes (two : bool) : string := if two then "--" else "-".

(** The arguments that spell one option. *)
Definition render_option (o : spelling * string * string) : list string :=
  let '(sp, name, v) := o in
  match sp with
  | equals_form two => [dashes two ++ name ++ "=" ++ v]
  | separate_form two => [dashes two ++ name; v]
  end.

Definition render_options (os : list (spelling * string * string)) : list string :=
  flat_map render_option os.

Definition option_names (os : list (spelling * string * string)) : list string :=
  map (fun o => snd (fst o)) os.

(** A name that [parseOne] reads back as it was written: not empty, not
    starting with a minus sign, and without an equals sign. *)
Definition plain_name (name : string) : bool :=
  match name with
  | EmptyString => false
  | String c _ =>
      negb (strconv.byte c =? strconv.byte "-") && negb (flag.contains_equals name)
  end.

(** The cell that [InitArgs] binds a flag name to, if any. *)
Fixpoint flag_of_name_in (t : list (string * flag.Value)) (name : string)
  : option flag.Value :=
  match t with
  | [] => None
  | (n, v) :: t' => if String.eqb n name then Some v else flag_of_name_in t' name
  end.

Definition flag_of_name : string -> option flag.Value := flag_of_name_in flag_table.

(** Arguments at which [flag.Parse] stops without an error: none, one
    that is not a flag, or the terminator [--]. *)
Definition stops_parsing (tail : list string) : bool :=
  match tail with
  | [] => true
  | s :: _ =>
      (len s <? 2)
      || negb (strconv.byte (byte_at s 0) =? strconv.byte "-")
      || String.eqb s "--"
  end.

(** What a list of options, read from left to right, makes of a record:
    the record with every value stored in the cell of its name, or the exit
    status of the first option that is refused (an unregistered name, [help]
    and [h] asking for the usage text; an integer that does not parse). *)
Inductive expectation : Type :=
| Parsed (c : ArgConfig)
| Rejected (code : Z).

Fixpoint expected (os : list (spelling * string * string)) (c : ArgConfig)
  : expectation :=
  match os with
  | [] => Parsed c
  | (_, name, v) :: os' =>
      match flag_of_name name with
      | None =>
          Rejected (if String.eqb name "help" || String.eqb name "h" then 0 else 2)
      | Some (flag.stringValue p) => expected os' (store_string p v c)
      | Some (flag.intValue p) =>
          match strconv.ParseInt v 0 strconv.IntSize with
          | (n, None) => expected os' (store_int p n c)
          | (_, Some _) => Rejected 2
          end
      end
  end.

(** A memory of [InitArgs] by its parts. *)
Definition memory (c : ArgConfig) (pd : bool) (ac F : gmap string flag.Flag)
           (a : list string) : flag.Mem :=
  {| flag.cfg := c;
     flag.CommandLine := {| flag.parsed := pd; flag.actual := ac;
                            flag.formal := F; flag.args := a |} |}.

(** The paths a trace checked for existence. *)
Definition stat_calls (t : Trace) : list string :=
  omap (fun e => match e with EvStat name => Some name | _ => None end) t.

(** ** More example runs *)

(** Four options in the four spellings, then a positional argument and
    what follows it. *)
Definition spelled_options : list (spelling * string * string) :=
  [ (equals_form true, "focus", "sig-apps");
    (separate_form false, "skip", "[Serial]");
    (separate_form true, "parallel", "4");
    (equals_form false, "verbosity", "6") ].

Definition proc_spellings : Process :=
  started_with ["--focus=sig-apps"; "-skip"; "[Serial]"; "--parallel"; "4";
                "-verbosity=6"; "results"; "--focus=ignored"].

Definition cfg_spellings : ArgConfig :=
  {| Focus := "sig-apps"; Skip := "[Serial]";
     ConformanceImage := "registry.k8s.io/conformance:v1.28.0";
     BusyboxImage := "registry.k8s.io/e2e-test-images/busybox:1.36.1-1";
     Kubeconfig := ""; Parallel := 4; Verbosity := 6; OutputDir := "/home/ci/run" |}.

(** All eight options. *)
Definition proc_all_options : Process :=
  started_with ["--focus=sig-node"; "--skip=[Slow]"; "--conformance-image=example.org/conf:1";
                "--busybox-image=example.org/bb:2"; "--kubeconfig=/etc/kube/config";
                "--parallel=0x10"; "--verbosity=-1"; "--output-dir=/var/tmp/out"].

Definition cfg_all_options : ArgConfig :=
  {| Focus := "sig-node"; Skip := "[Slow]";
     ConformanceImage := "example.org/conf:1"; BusyboxImage := "example.org/bb:2";
     Kubeconfig := "/etc/kube/config"; Parallel := 16; Verbosity := -1;
     OutputDir := "/var/tmp/out" |}.

(** A positional argument first; a flag without its value last. *)
Definition proc_positional : Process :=
  started_with ["run"; "--focus=[Conformance]"].

Definition proc_missing_value : Process :=
  started_with ["--focus=sig-apps"; "--skip"].

(** ** What is at a path *)









(** The text that the last option named [name] of a list gives. *)
Fixpoint last_value (name : string) (os : list (spelling * string * string))
  : option string :=
  match os with
  | [] => None
  | (_, n, v) :: os' =>
      match last_value name os' with
      | Some s => Some s
      | None => if String.eqb n name then Some v else None
      end
  end.


(** * Properties *)

Ltac go_unfold :=
  cbv [mbind M_bind mret M_ret get modify exit panic emit] in *.

(** ** Memory cells *)

Lemma load_store_string_eq p s c :
  load_string p (store_string p s c) = s.
Proof. by destruct c, p. Qed.

Lemma load_store_int_eq p n c :
  load_int p (store_int p n c) = n.
Proof. by destruct c, p. Qed.

Lemma load_assigned_ne v v' s c c' :
  v <> v' -> assigned v' s c c' -> load v c' = load v c.
Proof.
  destruct v as [p|p], v' as [q|q]; simpl; intros Hne Hs.
  - subst c'. destruct c, p, q; simpl; congruence.
  - destruct Hs as (n & _ & ->). by destruct c, p, q.
  - subst c'. by destruct c, p, q.
  - destruct Hs as (n & _ & ->). destruct c, p, q; simpl; congruence.
Qed.

(** ** One round of the parser *)

(** [parseOne] always comes back (it neither exits nor panics), leaves the
    registered flags alone, and when it has seen a flag it has consumed an
    argument, assigned the flag's value and recorded the flag as set. *)
Lemma parseOne_cases (m : flag.Mem) :
  exists seen e m',
    flag.parseOne m = Done (seen, e) m'
    /\ flag.formal (flag.CommandLine m') = flag.formal (flag.CommandLine m)
    /\ flag.parsed (flag.CommandLine m') = flag.parsed (flag.CommandLine m)
    /\ ((seen = false
         /\ (e = None -> flag.cfg m' = flag.cfg m)
         /\ flag.actual (flag.CommandLine m') = flag.actual (flag.CommandLine m))
        \/ (seen = true /\ e = None
            /\ (length (flag.args (flag.CommandLine m'))
                < length (flag.args (flag.CommandLine m)))%nat
            /\ exists name fl s,
                flag.formal (flag.CommandLine m) !! name = Some fl
                /\ flag.actual (flag.CommandLine m')
                   = <[name := fl]> (flag.actual (flag.CommandLine m))
                /\ assigned (flag.value fl) s (flag.cfg m) (flag.cfg m'))).
Proof.
  destruct m as [c [pd ac fo ar]].
  unfold flag.parseOne, flag.Value_Set. go_unfold. simpl.
  repeat (case_match; simpl in *; simplify_eq);
    go_unfold; simplify_eq;
    (eexists _, _, _; split; [reflexivity|]; simpl;
     split; [reflexivity|]; split; [reflexivity|]);
    try (left; split; [reflexivity|]; split; [done|reflexivity]).
  all: right; split; [reflexivity|]; split; [reflexivity|]; split; [simpl; lia|].
  all: eexists _, _, _; split; [eassumption|]; split; [reflexivity|].
  all: match goal with H : flag.value _ = _ |- _ => rewrite H end; simpl; eauto.
Qed.

(** ** The parse loop *)

Lemma Parse_loop_unfold m :
  flag.Parse_loop m =
  match flag.parseOne m with
  | Done (true, _) m' => flag.Parse_loop m'
  | Done (false, None) m' => Done tt m'
  | Done (false, Some flag.ErrHelp) m' => Exited 0 m'
  | Done (false, Some _) m' => Exited 2 m'
  | Exited code m' => Exited code m'
  | Panicked m' => Panicked m'
  end.
Proof.
  rewrite flag.Parse_loop_equation_1. unfold flag.Parse_loop_unfold_clause_1, inspect.
  destruct (flag.parseOne m) as [[[] [[]|]] m'|code m'|m']; reflexivity.
Qed.

(** An invariant kept by every round that sees a flag, and by the round
    that ends the loop, holds when [Parse_loop] returns. *)
Lemma Parse_loop_inv (I : flag.Mem -> Prop) :
  (forall m e m', I m -> flag.parseOne m = Done (true, e) m' -> I m') ->
  (forall m m', I m -> flag.parseOne m = Done (false, None) m' -> I m') ->
  forall m m', I m -> flag.Parse_loop m = Done tt m' -> I m'.
Proof.
  intros Hseen Hstop m.
  remember (length (flag.args (flag.CommandLine m))) as n eqn:Hn.
  revert m Hn. induction n as [n IH] using lt_wf_ind. intros m -> m' HI.
  rewrite Parse_loop_unfold.
  destruct (parseOne_cases m)
    as (seen & e & m1 & Hp & _ & _ & [(-> & _ & _)|(-> & -> & Hlt & _)]);
    rewrite Hp.
  - destruct e as [[]|]; try discriminate. intros [= <-]. eauto.
  - intros Hl. eapply (IH _ Hlt m1 eq_refl); eauto.
Qed.

(** [Parse_loop] never panics: a process that leaves it has returned from
    it or has exited with status 0 or 2. *)
Lemma Parse_loop_no_panic m :
  exists m', flag.Parse_loop m = Done tt m'
             \/ flag.Parse_loop m = Exited 0 m'
             \/ flag.Parse_loop m = Exited 2 m'.
Proof.
  remember (length (flag.args (flag.CommandLine m))) as n eqn:Hn.
  revert m Hn. induction n as [n IH] using lt_wf_ind. intros m ->.
  rewrite Parse_loop_unfold.
  destruct (parseOne_cases m)
    as (seen & e & m1 & Hp & _ & _ & [(-> & _ & _)|(-> & -> & Hlt & _)]);
    rewrite Hp.
  - destruct e as [[]|]; eauto.
  - apply (IH _ Hlt m1 eq_refl).
Qed.

(** ** Registration *)

Lemma bind_Done {S A B} (c : M S A) (k : A -> M S B) s a s' :
  c s = Done a s' -> (c ≫= k) s = k a s'.
Proof. unfold mbind, M_bind. by intros ->. Qed.

Lemma StringVar_fresh p name val usage c pd ac fo ar :
  String.prefix "-" name = false ->
  flag.contains_equals name = false ->
  fo !! name = None ->
  flag.StringVar p name val usage
    {| flag.cfg := c;
       flag.CommandLine := {| flag.parsed := pd; flag.actual := ac;
                              flag.formal := fo; flag.args := ar |} |}
  = Done tt
      {| flag.cfg := store_string p val c;
         flag.CommandLine :=
           {| flag.parsed := pd; flag.actual := ac;
              flag.formal :=
                <[name := {| flag.Name := name; flag.Usage := usage;
                             flag.value := flag.stringValue p;
                             flag.DefValue := val |}]> fo;
              flag.args := ar |} |}.
Proof.
  intros Hp He Hf. unfold flag.StringVar, flag.Var. go_unfold.
  rewrite Hp, He. cbn [flag.formal flag.CommandLine flag.set_cfg].
  rewrite Hf. cbn. by rewrite load_store_string_eq.
Qed.

Lemma IntVar_fresh p name val usage c pd ac fo ar :
  String.prefix "-" name = false ->
  flag.contains_equals name = false ->
  fo !! name = None ->
  flag.IntVar p name val usage
    {| flag.cfg := c;
       flag.CommandLine := {| flag.parsed := pd; flag.actual := ac;
                              flag.formal := fo; flag.args := ar |} |}
  = Done tt
      {| flag.cfg := store_int p val c;
         flag.CommandLine :=
           {| flag.parsed := pd; flag.actual := ac;
              flag.formal :=
                <[name := {| flag.Name := name; flag.Usage := usage;
                             flag.value := flag.intValue p;
                             flag.DefValue := pretty val |}]> fo;
              flag.args := ar |} |}.
Proof.
  intros Hp He Hf. unfold flag.IntVar, flag.Var. go_unfold.
  rewrite Hp, He. cbn [flag.formal flag.CommandLine flag.set_cfg].
  rewrite Hf. cbn. by rewrite load_store_int_eq.
Qed.

(** ** The flag table *)

Ltac in_table :=
  unfold flag_table;
  repeat first [apply list_elem_of_here | apply list_elem_of_further].

Lemma flag_table_inj N N' v :
  (N, v) ∈ flag_table -> (N', v) ∈ flag_table -> N = N'.
Proof.
  unfold flag_table. intros H H'.
  repeat (apply elem_of_cons in H as [H|H]; [injection H as -> ->|]);
    try (by apply elem_of_nil in H);
    repeat (apply elem_of_cons in H' as [H'|H']; [by simplify_eq|]);
    by apply elem_of_nil in H'.
Qed.

Lemma flag_table_fun N v v' :
  (N, v) ∈ flag_table -> (N, v') ∈ flag_table -> v = v'.
Proof.
  unfold flag_table. intros H H'.
  repeat (apply elem_of_cons in H as [H|H]; [injection H as -> ->|]);
    try (by apply elem_of_nil in H);
    repeat (apply elem_of_cons in H' as [H'|H']; [by simplify_eq|]);
    by apply elem_of_nil in H'.
Qed.

Lemma registered_table_value F N fl v :
  registered_table F -> F !! N = Some fl -> (N, v) ∈ flag_table -> flag.value fl = v.
Proof.
  intros [H1 _] Hl Hin. apply H1 in Hl. eapply flag_table_fun; eauto.
Qed.

(** ** The invariant of the parse loop *)

Lemma parse_invariant_start c0 F pd a :
  parse_invariant c0 F (parse_memory c0 F pd a).
Proof.
  split; [done|]. split; [done|]. simpl. rewrite lookup_empty. by intros [? ?].
Qed.

Lemma parse_invariant_step c0 F m b e m' :
  registered_table F ->
  parse_invariant c0 F m ->
  flag.parseOne m = Done (b, e) m' ->
  e = None ->
  parse_invariant c0 F m'.
Proof.
  intros HF (Hfo & Hdef & Hpar) Hp ->.
  destruct (parseOne_cases m)
    as (seen & e & m1 & Hp' & Hfo' & _ & Hcases).
  rewrite Hp in Hp'. injection Hp' as <- <- <-.
  destruct Hcases as [(-> & Hc & Hac)|(-> & _ & _ & name & fl & s & Hl & Hac & Has)].
  - unfold parse_invariant. rewrite Hac, Hfo', (Hc eq_refl). done.
  - rewrite Hfo in Hl.
    assert (Hname : (name, flag.value fl) ∈ flag_table) by (by apply HF).
    split; [congruence|]. split.
    + intros N fl0 HN. rewrite Hac. intros Hnone.
      apply lookup_insert_None in Hnone as [Hnone Hne].
      rewrite <- (Hdef N fl0 HN Hnone).
      eapply load_assigned_ne; [|exact Has].
      intros Heq. apply Hne. destruct HF as [HF _]. apply HF in HN.
      rewrite Heq in HN. eapply flag_table_inj; eauto.
    + rewrite Hac. destruct (decide (name = "parallel")) as [->|Hne].
      * intros _.
        assert (flag.value fl = flag.intValue addr_Parallel) as Hv.
        { eapply registered_table_value; eauto. in_table. }
        rewrite Hv in Has. destruct Has as (n & Hn & ->).
        exists s. rewrite Hn. f_equal. by destruct (flag.cfg m).
      * rewrite lookup_insert_ne by done. intros Hsome.
        destruct (Hpar Hsome) as (s' & Hs'). exists s'. rewrite Hs'.
        f_equal.
        assert (load (flag.intValue addr_Parallel) (flag.cfg m')
                = load (flag.intValue addr_Parallel) (flag.cfg m)) as Hld.
        { eapply load_assigned_ne; [|exact Has]. intros Heq. apply Hne.
          rewrite <- Heq in Hname.
          eapply flag_table_inj; [exact Hname|]. in_table. }
        simpl in Hld. congruence.
Qed.

Lemma Parse_loop_invariant c0 F m m' :
  registered_table F ->
  parse_invariant c0 F m ->
  flag.Parse_loop m = Done tt m' ->
  parse_invariant c0 F m'.
Proof.
  intros HF HI Hl.
  eapply (Parse_loop_inv (parse_invariant c0 F)); [| |exact HI|exact Hl].
  - intros m1 e m2 H1 Hp.
    destruct (parseOne_cases m1) as (seen & e' & m3 & Hp' & _ & _ & Hc).
    rewrite Hp in Hp'. injection Hp' as <- <- <-.
    destruct Hc as [(? & _)|(_ & -> & _)]; [done|].
    eapply parse_invariant_step; eauto.
  - intros m1 m2 H1 Hp. eapply parse_invariant_step; eauto.
Qed.

Section InitArgs_facts.

Context {consts : PackageConstants}.

(** With a working directory, [InitArgs] registers its eight flags on
    top of the defaults and hands the arguments to the parse loop; what
    it returns is decided by [cfg.Focus] after the loop. *)
Lemma run_InitArgs_parse proc wd :
  os_Getwd proc = (wd, None) ->
  exists F, registered_table F /\
    run_InitArgs proc =
    match os_Args proc with
    | [] => Panicked (parse_memory (defaults wd) F false [])
    | _ :: a =>
        match flag.Parse_loop (parse_memory (defaults wd) F true a) with
        | Done _ m =>
            if String.eqb (Focus (flag.cfg m)) "" then Done (None, Some missing_focus) m
            else Done (Some (flag.cfg m), None) m
        | Exited code m => Exited code m
        | Panicked m => Panicked m
        end
    end.
Proof.
  intros Hwd. unfold run_InitArgs, InitArgs. rewrite Hwd.
  unfold process_start, flag.NewFlagSet.
  erewrite bind_Done by reflexivity. unfold flag.set_cfg; simpl.
  do 5 (erewrite bind_Done by (apply StringVar_fresh; vm_compute; reflexivity)).
  do 2 (erewrite bind_Done by (apply IntVar_fresh; vm_compute; reflexivity)).
  erewrite bind_Done by (apply StringVar_fresh; vm_compute; reflexivity).
  simpl. eexists. split; [|unfold parse_memory, flag.Parse, flag.FlagSet_Parse;
    go_unfold; destruct (os_Args proc) as [|a0 a]; simpl; [reflexivity|];
    destruct (flag.Parse_loop _) as [[] m|code m|m]; try reflexivity;
    by destruct (String.eqb _ _)].
  split.
  - intros N fl H.
    repeat (apply lookup_insert_Some in H as [[<- <-]|[_ H]];
            [simpl; in_table|]).
    by rewrite lookup_empty in H.
  - unfold flag_table. intros N v H.
    repeat (apply elem_of_cons in H as [H|H];
            [injection H as -> ->; eexists; split; [by simplify_map_eq|reflexivity]|]).
    by apply elem_of_nil in H.
Qed.

(** [InitArgs] without a working directory: the error of [os.Getwd] is
    returned at once, whatever the arguments. *)
Lemma run_InitArgs_getwd_error proc wd e :
  os_Getwd proc = (wd, Some e) ->
  run_InitArgs proc = Done (None, Some e) process_start.
Proof.
  intros Hwd. unfold run_InitArgs, InitArgs. rewrite Hwd. reflexivity.
Qed.

(** The shape of every call that returns. *)
Lemma run_InitArgs_returns proc r m :
  run_InitArgs proc = Done r m ->
  (exists wd e, os_Getwd proc = (wd, Some e) /\ r = (None, Some e) /\ m = process_start)
  \/ (exists wd F,
        os_Getwd proc = (wd, None) /\ registered_table F
        /\ parse_invariant (defaults wd) F m
        /\ r = if String.eqb (Focus (flag.cfg m)) "" then (None, Some missing_focus)
               else (Some (flag.cfg m), None)).
Proof.
  destruct (os_Getwd proc) as [wd [e|]] eqn:Hwd.
  - rewrite (run_InitArgs_getwd_error _ _ _ Hwd). intros [= <- <-]. left. eauto.
  - destruct (run_InitArgs_parse _ _ Hwd) as (F & HF & ->).
    destruct (os_Args proc) as [|a0 a]; [discriminate|].
    destruct (flag.Parse_loop _) as [[] m1|code m1|m1] eqn:Hl; try discriminate.
    intros Hr. right. exists wd, F. split; [done|]. split; [done|].
    assert (parse_invariant (defaults wd) F m1) as HI.
    { eapply Parse_loop_invariant; [done| |exact Hl]. apply parse_invariant_start. }
    destruct (String.eqb _ _) eqn:Hf in Hr; injection Hr as <- <-;
      rewrite Hf; done.
Qed.

(** [InitArgs] always ends: it returns, or [flag.Parse] has ended the
    process with status 0 (help) or 2 (rejected argument); it panics only
    on an empty [os.Args]. *)
Lemma run_InitArgs_outcomes proc :
  (exists r, result (run_InitArgs proc) = Returns r)
  \/ result (run_InitArgs proc) = Exits 0
  \/ result (run_InitArgs proc) = Exits 2
  \/ (os_Args proc = [] /\ result (run_InitArgs proc) = Panics).
Proof.
  destruct (os_Getwd proc) as [wd [e|]] eqn:Hwd.
  - rewrite (run_InitArgs_getwd_error _ _ _ Hwd). left. by eexists.
  - destruct (run_InitArgs_parse _ _ Hwd) as (F & _ & ->).
    destruct (os_Args proc) as [|a0 a]; [by right; right; right|].
    destruct (Parse_loop_no_panic (parse_memory (defaults wd) F true a))
      as (m & [-> | [-> | ->]]).
    + left. destruct (String.eqb _ _); by eexists.
    + by right; left.
    + by right; right; left.
Qed.

End InitArgs_facts.

(** ** The range of [strconv.ParseInt] *)

Lemma ParseUint_loop_inl base base0 cutoff maxVal s n u n' u' :
  0 <= base -> 0 <= n ->
  strconv.ParseUint_loop base base0 cutoff maxVal s n u = inl (n', u') ->
  0 <= n'.
Proof.
  intros Hb. revert n u. induction s as [|c s IH]; simpl; intros n u Hn.
  - intros [= <- _]. done.
  - destruct ((strconv.byte c =? strconv.byte "_") && base0); [by apply IH|].
    destruct ((strconv.byte "0" <=? strconv.byte c) && (strconv.byte c <=? strconv.byte "9"))
      eqn:Hd.
    + apply andb_prop in Hd as [Hd%Z.leb_le _].
      repeat (case_match; try discriminate). apply IH. nia.
    + destruct ((strconv.byte "a" <=? strconv.lower c) && (strconv.lower c <=? strconv.byte "z"))
        eqn:Hl; [|discriminate].
      apply andb_prop in Hl as [Hl%Z.leb_le _].
      repeat (case_match; try discriminate). apply IH. nia.
Qed.

Lemma ParseUint_loop_inr base base0 cutoff maxVal s n u v :
  strconv.ParseUint_loop base base0 cutoff maxVal s n u = inr (v, strconv.ErrRange) ->
  v = maxVal.
Proof.
  revert n u. induction s as [|c s IH]; simpl; intros n u; [discriminate|].
  repeat (case_match; try discriminate); eauto; by intros [= <-].
Qed.

(** With base 0 and 64 bits, [ParseUint] gives a natural number, and
    [2^64 - 1] along with a range error. *)
Lemma ParseUint_0_64 s un err :
  strconv.ParseUint s 0 64 = (un, err) ->
  match err with
  | None => 0 <= un
  | Some strconv.ErrRange => un = 2 ^ 64 - 1
  | Some _ => True
  end.
Proof.
  unfold strconv.ParseUint.
  destruct (String.eqb s ""); [by intros [= <- <-]|].
  change ((2 <=? 0) && (0 <=? 36)) with false. change (0 =? 0) with true.
  cbv iota.
  set (pre := match s with EmptyString => _ | String _ _ => _ end).
  assert (exists b s', pre = Some (b, s') /\ 0 <= b) as (b & s' & -> & Hb).
  { subst pre. destruct s as [|c0 s1]; [by eexists _, _|].
    repeat (case_match; try (by eexists _, _)). }
  change ((64 =? 0)) with false. cbv iota.
  change ((64 <? 0) || (64 >? 64)) with false. cbv iota.
  destruct (strconv.ParseUint_loop _ _ _ _ _ _ _) as [[n u]|[v e]] eqn:Hl.
  - destruct (u && _); intros [= <- <-]; [done|].
    eapply ParseUint_loop_inl; [exact Hb| |exact Hl]. done.
  - intros [= <- <-]. destruct e; try done.
    by apply ParseUint_loop_inr in Hl.
Qed.

(** A text that [ParseInt] accepts as a 64-bit integer denotes a number
    between [-2^63] and [2^63 - 1]. *)
Lemma ParseInt_range s n :
  strconv.ParseInt s 0 strconv.IntSize = (n, None) ->
  - 2 ^ 63 <= n < 2 ^ 63.
Proof.
  unfold strconv.ParseInt, strconv.IntSize.
  destruct (String.eqb s ""); [discriminate|].
  set (sg := match s with EmptyString => _ | String _ _ => _ end).
  destruct sg as [neg s'].
  destruct (strconv.ParseUint s' 0 64) as [un err] eqn:Hu.
  apply ParseUint_0_64 in Hu.
  change (64 =? 0) with false. cbv iota.
  change (2 ^ (64 - 1)) with (2 ^ 63).
  destruct err as [[]|]; try discriminate.
  - subst un. destruct neg; simpl; discriminate.
  - destruct neg; simpl.
    + destruct (un >? 2 ^ 63) eqn:Hc; [discriminate|]. intros [= <-]. lia.
    + destruct (un >=? 2 ^ 63) eqn:Hc; [discriminate|]. intros [= <-]. lia.
Qed.

(** Sample readings: decimal, signed, prefixed and underscored texts, and
    the two kinds of refusal. *)
Example ParseInt_samples :
  strconv.ParseInt "0" 0 64 = (0, None)
  /\ strconv.ParseInt "4" 0 64 = (4, None)
  /\ strconv.ParseInt "-3" 0 64 = (-3, None)
  /\ strconv.ParseInt "0x1F" 0 64 = (31, None)
  /\ strconv.ParseInt "1_000" 0 64 = (1000, None)
  /\ strconv.ParseInt "" 0 64 = (0, Some strconv.ErrSyntax)
  /\ strconv.ParseInt "four" 0 64 = (0, Some strconv.ErrSyntax)
  /\ strconv.ParseInt "9223372036854775808" 0 64
     = (9223372036854775807, Some strconv.ErrRange).
Proof. repeat split; vm_compute; reflexivity. Qed.

(** ** [InitArgs]: what the caller gets *)

Section InitArgs_claims.

Context {consts : PackageConstants}.

Lemma final_memory_Done proc r m :
  run_InitArgs proc = Done r m -> final_memory proc = m.
Proof. unfold final_memory. by intros ->. Qed.

(** After a call that returns with a working directory [wd], an option
    that was not supplied still has the value it was registered with. *)
Lemma not_supplied_default proc r m wd F N v :
  run_InitArgs proc = Done r m ->
  registered_table F ->
  parse_invariant (defaults wd) F m ->
  (N, v) ∈ flag_table ->
  supplied proc N = false ->
  load v (flag.cfg m) = load v (defaults wd).
Proof.
  intros Hrun HF (_ & Hdef & _) Hin Hs.
  unfold supplied in Hs. rewrite (final_memory_Done _ _ _ Hrun) in Hs.
  destruct HF as [_ HF]. destruct (HF N v Hin) as (fl & Hl & <-).
  apply (Hdef N fl Hl). by destruct (_ !! N).
Qed.

(** C1 (amended). When the working directory is known and the flag
    parser accepts the arguments, so that [InitArgs] returns, an empty or
    unset focus makes it return the missing-focus error and a nil
    record. *)
Theorem InitArgs_missing_focus proc wd r :
  os_Getwd proc = (wd, None) ->
  result (run_InitArgs proc) = Returns r ->
  focus_empty_or_unset proc ->
  r = (None, Some missing_focus).
Proof.
  intros Hwd Hres Hfocus.
  destruct (run_InitArgs proc) as [r' m| |] eqn:Hrun; try discriminate.
  injection Hres as ->.
  destruct (run_InitArgs_returns _ _ _ Hrun)
    as [(wd' & e & Hwd' & _)|(wd' & F & Hwd' & HF & HI & ->)]; [congruence|].
  assert (Focus (flag.cfg m) = "") as ->; [|reflexivity].
  destruct Hfocus as [Hs|Hf].
  - assert (("focus", flag.stringValue addr_Focus) ∈ flag_table) as Hin by in_table.
    pose proof (not_supplied_default _ _ _ _ _ _ _ Hrun HF HI Hin Hs) as Hl.
    simpl in Hl. congruence.
  - unfold focus_after_parsing in Hf.
    by rewrite (final_memory_Done _ _ _ Hrun) in Hf.
Qed.

(** C2 (amended). When the flag parser accepts the arguments, so that
    [InitArgs] returns, and focus is not empty after parsing, [InitArgs]
    returns a record and no error, and every option that was not supplied
    has its default in that record. *)
Theorem InitArgs_defaults proc r :
  result (run_InitArgs proc) = Returns r ->
  focus_after_parsing proc <> "" ->
  exists cfg wd,
    r = (Some cfg, None)
    /\ os_Getwd proc = (wd, None)
    /\ Focus cfg = focus_after_parsing proc
    /\ (supplied proc "skip" = false -> Skip cfg = "")
    /\ (supplied proc "conformance-image" = false -> ConformanceImage cfg = containerImage)
    /\ (supplied proc "busybox-image" = false -> BusyboxImage cfg = busyboxImage)
    /\ (supplied proc "kubeconfig" = false -> Kubeconfig cfg = "")
    /\ (supplied proc "parallel" = false -> Parallel cfg = 1)
    /\ (supplied proc "verbosity" = false -> Verbosity cfg = 4)
    /\ (supplied proc "output-dir" = false -> OutputDir cfg = wd).
Proof.
  intros Hres Hfocus.
  destruct (run_InitArgs proc) as [r' m| |] eqn:Hrun; try discriminate.
  injection Hres as ->.
  unfold focus_after_parsing in *.
  rewrite (final_memory_Done _ _ _ Hrun) in *.
  destruct (run_InitArgs_returns _ _ _ Hrun)
    as [(wd & e & _ & _ & ->)|(wd & F & Hwd & HF & HI & ->)]; [done|].
  destruct (String.eqb_spec (Focus (flag.cfg m)) ""); [done|].
  exists (flag.cfg m), wd. split; [done|]. split; [done|]. split; [done|].
  pose proof (fun N v Hin Hs =>
    not_supplied_default _ _ _ _ _ N v Hrun HF HI Hin Hs) as Hdef.
  repeat split; intros Hs.
  - specialize (Hdef _ (flag.stringValue addr_Skip) ltac:(in_table) Hs).
    simpl in Hdef. congruence.
  - specialize (Hdef _ (flag.stringValue addr_ConformanceImage) ltac:(in_table) Hs).
    simpl in Hdef. congruence.
  - specialize (Hdef _ (flag.stringValue addr_BusyboxImage) ltac:(in_table) Hs).
    simpl in Hdef. congruence.
  - specialize (Hdef _ (flag.stringValue addr_Kubeconfig) ltac:(in_table) Hs).
    simpl in Hdef. congruence.
  - specialize (Hdef _ (flag.intValue addr_Parallel) ltac:(in_table) Hs).
    simpl in Hdef. congruence.
  - specialize (Hdef _ (flag.intValue addr_Verbosity) ltac:(in_table) Hs).
    simpl in Hdef. congruence.
  - specialize (Hdef _ (flag.stringValue addr_OutputDir) ltac:(in_table) Hs).
    simpl in Hdef. congruence.
Qed.

(** C3. When the output-dir option is not supplied, the record that
    [InitArgs] returns has the working directory of the process as its
    output directory; and when the working directory cannot be
    determined, [InitArgs] returns that error and a nil record whatever
    the arguments are, the flag set being as untouched as the process
    started with. *)
Theorem InitArgs_output_dir :
  (forall proc cfg e,
      result (run_InitArgs proc) = Returns (Some cfg, e) ->
      supplied proc "output-dir" = false ->
      os_Getwd proc = (OutputDir cfg, None))
  /\ (forall proc wd e,
        os_Getwd proc = (wd, Some e) ->
        run_InitArgs proc = Done (None, Some e) process_start).
Proof.
  split.
  - intros proc cfg e Hres Hs.
    destruct (run_InitArgs proc) as [r' m| |] eqn:Hrun; try discriminate.
    injection Hres as ->.
    destruct (run_InitArgs_returns _ _ _ Hrun)
      as [(wd & e' & _ & ? & _)|(wd & F & Hwd & HF & HI & Hr)]; [done|].
    destruct (String.eqb _ _); [done|]. injection Hr as -> ->.
    assert (("output-dir", flag.stringValue addr_OutputDir) ∈ flag_table) as Hin
      by in_table.
    pose proof (not_supplied_default _ _ _ _ _ _ _ Hrun HF HI Hin Hs) as Hl.
    simpl in Hl. injection Hl as ->. done.
  - intros proc wd e Hwd. by eapply run_InitArgs_getwd_error.
Qed.

End InitArgs_claims.

(** ** [ValidateArgs]: what the outside world sees *)

Section ValidateArgs_claims.

Context {vp : VersionPackage}.

Lemma log_lines_reached_stat host version cfg t :
  log_lines (reached_stat host version cfg ++ t)%list
  = (informational_lines host version cfg ++ log_lines t)%list.
Proof.
  unfold reached_stat, informational_lines. by destruct (String.eqb (Skip cfg) "").
Qed.

Lemma mkdir_calls_reached_stat host version cfg t :
  mkdir_calls (reached_stat host version cfg ++ t)%list = mkdir_calls t.
Proof.
  unfold reached_stat, informational_lines. by destruct (String.eqb (Skip cfg) "").
Qed.

Lemma no_Stat_before_banner name line :
  EvStat name ∉ [EvServerVersion; EvLog line].
Proof.
  intros H. repeat (apply elem_of_cons in H as [H|H]; [discriminate|]).
  by apply elem_of_nil in H.
Qed.

(** The three ways a call goes on after a successful version query. *)
Lemma run_ValidateArgs_success fs err client config cfg v :
  ServerVersion_answer (ClientSet client) = (Some v, None) ->
  run_ValidateArgs fs err client config cfg =
  if os_IsNotExist (Stat_answer fs (OutputDir cfg)) then
    match MkdirAll_answer fs (OutputDir cfg) perm_0755 with
    | Some e =>
        Exited 1 (reached_stat (Host config) (GoSyntax v) cfg
                  ++ [EvMkdirAll (OutputDir cfg) perm_0755;
                      EvLog (mkdir_failure_line (OutputDir cfg) e)])%list
    | None =>
        Done tt (reached_stat (Host config) (GoSyntax v) cfg
                 ++ [EvMkdirAll (OutputDir cfg) perm_0755])%list
    end
  else Done tt (reached_stat (Host config) (GoSyntax v) cfg).
Proof.
  intros Hv. unfold run_ValidateArgs, ValidateArgs, ServerVersion, reached_stat,
    informational_lines, os_Stat, os_MkdirAll, log_Printf, log_Fatal,
    mkdir_failure_line.
  go_unfold. rewrite Hv. simpl.
  destruct (String.eqb (Skip cfg) ""); simpl;
    destruct (os_IsNotExist _); simpl; try reflexivity;
    destruct (MkdirAll_answer _ _ _); reflexivity.
Qed.

(** A call whose version query fails, or answers with neither a version
    nor an error, never gets to the existence check. *)
Lemma run_ValidateArgs_no_version fs err client config cfg :
  (forall v, ServerVersion_answer (ClientSet client) <> (Some v, None)) ->
  (exists e, run_ValidateArgs fs err client config cfg
             = Exited 1 [EvServerVersion; EvLog (version_failure_line e)])
  \/ run_ValidateArgs fs err client config cfg
     = Panicked [EvServerVersion; EvLog ("API endpoint : " ++ Host config)].
Proof.
  intros Hv. unfold run_ValidateArgs, ValidateArgs, ServerVersion, log_Printf, log_Fatal.
  go_unfold.
  destruct (ServerVersion_answer (ClientSet client)) as [[v|] [e|]]; simpl; eauto.
  by destruct (Hv v).
Qed.

(** A call whose version query fails stops at the fatal message. *)
Lemma run_ValidateArgs_failure fs err client config cfg sv e :
  ServerVersion_answer (ClientSet client) = (sv, Some e) ->
  run_ValidateArgs fs err client config cfg
  = Exited 1 [EvServerVersion; EvLog (version_failure_line e)].
Proof.
  intros Hv. unfold run_ValidateArgs, ValidateArgs, ServerVersion, log_Fatal.
  go_unfold. by rewrite Hv.
Qed.

(** C4. When the version query fails, [ValidateArgs] logs the error and
    the process exits with status 1: the call does not return, and after
    the failure message there is no log line, no existence check and no
    directory creation. *)
Theorem ValidateArgs_version_failure fs err client config cfg sv e :
  ServerVersion_answer (ClientSet client) = (sv, Some e) ->
  let o := run_ValidateArgs fs err client config cfg in
  result o = Exits 1
  /\ trace_of o
     = [EvServerVersion; EvLog ("Error fetching server version: " ++ Error e)]
  /\ log_lines (trace_of o) = ["Error fetching server version: " ++ Error e]
  /\ mkdir_calls (trace_of o) = [].
Proof.
  intros Hv o. subst o. rewrite (run_ValidateArgs_failure _ _ _ _ _ _ _ Hv).
  repeat split.
Qed.

Lemma informational_lines_not_skipping host version cfg :
  Skip cfg = "" ->
  Forall (fun l => is_skipping_line l = false) (informational_lines host version cfg).
Proof.
  intros Hs. unfold informational_lines. rewrite Hs. simpl.
  repeat constructor.
Qed.

(** C5 (amended). With an empty skip expression no log line of
    [ValidateArgs] is a "Skipping tests" line; with a non-empty one, and
    a version query that succeeds, the line is logged and holds the very
    value. *)
Theorem ValidateArgs_skip_line fs err client config cfg :
  (Skip cfg = "" ->
   Forall (fun l => is_skipping_line l = false)
          (log_lines (trace_of (run_ValidateArgs fs err client config cfg))))
  /\ (forall v,
        Skip cfg <> "" ->
        ServerVersion_answer (ClientSet client) = (Some v, None) ->
        ("Skipping tests : '" ++ Skip cfg ++ "'")
          ∈ log_lines (trace_of (run_ValidateArgs fs err client config cfg))).
Proof.
  split.
  - intros Hs.
    destruct (ServerVersion_answer (ClientSet client)) as [[v|] [e|]] eqn:Hv.
    + rewrite (run_ValidateArgs_failure _ _ _ _ _ _ _ Hv). repeat constructor.
    + rewrite (run_ValidateArgs_success _ _ _ _ _ _ Hv).
      pose proof (informational_lines_not_skipping (Host config) (GoSyntax v) cfg Hs) as Hi.
      destruct (os_IsNotExist _); [destruct (MkdirAll_answer _ _ _)|]; cbn [trace_of].
      * rewrite log_lines_reached_stat. apply Forall_app. split; [done|].
        repeat constructor.
      * rewrite log_lines_reached_stat. apply Forall_app. split; [done|]. constructor.
      * rewrite <- (app_nil_r (reached_stat _ _ _)), log_lines_reached_stat.
        apply Forall_app. split; [done|]. constructor.
    + rewrite (run_ValidateArgs_failure _ _ _ _ _ _ _ Hv). repeat constructor.
    + destruct (run_ValidateArgs_no_version fs err client config cfg) as [(e & ->)| ->].
      * intros v. by rewrite Hv.
      * repeat constructor.
      * repeat constructor.
  - intros v Hs Hv. rewrite (run_ValidateArgs_success _ _ _ _ _ _ Hv).
    assert (forall t, ("Skipping tests : '" ++ Skip cfg ++ "'")
              ∈ log_lines (reached_stat (Host config) (GoSyntax v) cfg ++ t)%list) as Hin.
    { intros t. rewrite log_lines_reached_stat. apply elem_of_app. left.
      unfold informational_lines.
      destruct (String.eqb_spec (Skip cfg) ""); [done|]. simpl.
      do 3 apply list_elem_of_further. apply list_elem_of_here. }
    destruct (os_IsNotExist _); [destruct (MkdirAll_answer _ _ _)|]; cbn [trace_of];
      try done.
    rewrite <- (app_nil_r (reached_stat _ _ _)). done.
Qed.


(** C7. When the version query succeeds, the log lines come in this
    order: the API endpoint, the server version, the focus, the skip
    expression if it is not empty, the conformance image, the busybox
    image, and the line with parallelism and verbosity. Nothing follows
    them but the failure message of a directory creation that failed. *)
Theorem ValidateArgs_log_order fs err client config cfg v :
  ServerVersion_answer (ClientSet client) = (Some v, None) ->
  exists rest,
    log_lines (trace_of (run_ValidateArgs fs err client config cfg))
    = ([ ("API endpoint : " ++ Host config)%string;
         ("Server version : " ++ GoSyntax v)%string;
         ("Running tests : '" ++ Focus cfg ++ "'")%string ]
       ++ (if String.eqb (Skip cfg) "" then []
           else [ ("Skipping tests : '" ++ Skip cfg ++ "'")%string ])
       ++ [ ("Using conformance image : '" ++ ConformanceImage cfg ++ "'")%string;
            ("Using busybox image : '" ++ BusyboxImage cfg ++ "'")%string;
            ("Test framework will start '" ++ pretty (Parallel cfg)
               ++ "' threads and use verbosity '" ++ pretty (Verbosity cfg) ++ "'")%string ]
       ++ rest)%list
    /\ (rest = []
        \/ exists e, MkdirAll_answer fs (OutputDir cfg) perm_0755 = Some e
                     /\ rest = [mkdir_failure_line (OutputDir cfg) e]).
Proof.
  intros Hv. rewrite (run_ValidateArgs_success _ _ _ _ _ _ Hv).
  assert (forall rest : list string,
    ([ ("API endpoint : " ++ Host config)%string;
       ("Server version : " ++ GoSyntax v)%string;
       ("Running tests : '" ++ Focus cfg ++ "'")%string ]
     ++ (if String.eqb (Skip cfg) "" then []
         else [ ("Skipping tests : '" ++ Skip cfg ++ "'")%string ])
     ++ [ ("Using conformance image : '" ++ ConformanceImage cfg ++ "'")%string;
          ("Using busybox image : '" ++ BusyboxImage cfg ++ "'")%string;
          ("Test framework will start '" ++ pretty (Parallel cfg)
             ++ "' threads and use verbosity '" ++ pretty (Verbosity cfg) ++ "'")%string ]
     ++ rest)%list
    = (informational_lines (Host config) (GoSyntax v) cfg ++ rest)%list) as Hlines.
  { intros rest. unfold informational_lines. by destruct (String.eqb (Skip cfg) ""). }
  setoid_rewrite Hlines.
  destruct (os_IsNotExist _); [destruct (MkdirAll_answer _ _ _) as [e|] eqn:He|];
    cbn [trace_of].
  - exists [mkdir_failure_line (OutputDir cfg) e]. split; [|eauto].
    by rewrite log_lines_reached_stat.
  - exists []. split; [|eauto]. by rewrite log_lines_reached_stat.
  - exists []. split; [|eauto].
    by rewrite <- (app_nil_r (reached_stat _ _ _)), log_lines_reached_stat.
Qed.

(** C9. The error handed to [ValidateArgs] as its first parameter has no
    influence: two calls that differ in it alone end the same way after
    the same events. *)
Theorem ValidateArgs_ignores_err fs err1 err2 client config cfg :
  run_ValidateArgs fs err1 client config cfg
  = run_ValidateArgs fs err2 client config cfg.
Proof. reflexivity. Qed.

(** C10. When the existence check is made and fails with an error that
    is not a not-exist error, [ValidateArgs] does not try to create the
    directory and reports nothing: it returns, its log holding the
    informational lines only. *)
Theorem ValidateArgs_stat_other_error fs err client config cfg e :
  EvStat (OutputDir cfg) ∈ trace_of (run_ValidateArgs fs err client config cfg) ->
  Stat_answer fs (OutputDir cfg) = Some e ->
  os_IsNotExist (Some e) = false ->
  let o := run_ValidateArgs fs err client config cfg in
  result o = Returns tt
  /\ mkdir_calls (trace_of o) = []
  /\ exists v, ServerVersion_answer (ClientSet client) = (Some v, None)
               /\ log_lines (trace_of o)
                  = informational_lines (Host config) (GoSyntax v) cfg.
Proof.
  intros Hin Hs He o. subst o.
  destruct (ServerVersion_answer (ClientSet client)) as [[v|] [e'|]] eqn:Hv.
  - rewrite (run_ValidateArgs_failure _ _ _ _ _ _ _ Hv) in Hin.
    by apply no_Stat_before_banner in Hin.
  - rewrite (run_ValidateArgs_success _ _ _ _ _ _ Hv). rewrite Hs, He.
    cbn [result trace_of]. split; [done|].
    rewrite <- (app_nil_r (reached_stat _ _ _)).
    rewrite mkdir_calls_reached_stat, log_lines_reached_stat, app_nil_r. eauto.
  - rewrite (run_ValidateArgs_failure _ _ _ _ _ _ _ Hv) in Hin.
    by apply no_Stat_before_banner in Hin.
  - destruct (run_ValidateArgs_no_version fs err client config cfg) as [(e' & Hr)|Hr].
    + intros v. by rewrite Hv.
    + rewrite Hr in Hin. by apply no_Stat_before_banner in Hin.
    + rewrite Hr in Hin. by apply no_Stat_before_banner in Hin.
Qed.

End ValidateArgs_claims.

(** * The claims on concrete runs *)

Section Examples.

Local Existing Instance example_constants.
Local Existing Instance example_version.

(** C1, as stated, fails on two inputs. With the unknown flag [--bogus]
    and no focus, [flag.Parse] ends the process with status 2 and
    [InitArgs] returns nothing; without a working directory and no
    focus, [InitArgs] returns the error of [os.Getwd], not the
    missing-focus error. *)
Lemma InitArgs_missing_focus_counterexample :
  (focus_empty_or_unset proc_unknown_flag
   /\ result (run_InitArgs proc_unknown_flag) = Exits 2)
  /\ (focus_empty_or_unset proc_no_cwd
      /\ result (run_InitArgs proc_no_cwd) = Returns (None, Some getwd_error)
      /\ getwd_error <> missing_focus).
Proof.
  split; [split|split; [|split]].
  - left. vm_compute. reflexivity.
  - vm_compute. reflexivity.
  - left. vm_compute. reflexivity.
  - vm_compute. reflexivity.
  - discriminate.
Qed.

Lemma InitArgs_missing_focus_witness :
  os_Getwd proc_no_flags = ("/home/ci/run", None)
  /\ focus_empty_or_unset proc_no_flags
  /\ exists r, result (run_InitArgs proc_no_flags) = Returns r
               /\ r = (None, Some missing_focus).
Proof.
  assert (os_Getwd proc_no_flags = ("/home/ci/run", None)) as Hwd by reflexivity.
  assert (focus_empty_or_unset proc_no_flags) as Hf by (left; vm_compute; reflexivity).
  assert (result (run_InitArgs proc_no_flags) = Returns (None, Some missing_focus))
    as Hr by (vm_compute; reflexivity).
  split; [exact Hwd|]. split; [exact Hf|]. eexists. split; [exact Hr|].
  exact (InitArgs_missing_focus proc_no_flags _ _ Hwd Hr Hf).
Defined.

(** C2, as stated, fails when an argument after a non-empty focus is
    rejected: [flag.Parse] ends the process with status 2, and no record
    is returned. *)
Lemma InitArgs_defaults_counterexample :
  focus_after_parsing proc_focus_then_unknown = "[Conformance]"
  /\ result (run_InitArgs proc_focus_then_unknown) = Exits 2.
Proof. split; vm_compute; reflexivity. Qed.

Lemma InitArgs_defaults_witness :
  focus_after_parsing proc_conformance <> ""
  /\ result (run_InitArgs proc_conformance) = Returns (Some cfg_conformance, None)
  /\ Skip cfg_conformance = ""
  /\ ConformanceImage cfg_conformance = containerImage
  /\ BusyboxImage cfg_conformance = busyboxImage
  /\ Kubeconfig cfg_conformance = ""
  /\ Parallel cfg_conformance = 1
  /\ Verbosity cfg_conformance = 4
  /\ OutputDir cfg_conformance = "/home/ci/run".
Proof.
  assert (focus_after_parsing proc_conformance <> "") as Hf
    by (vm_compute; discriminate).
  assert (result (run_InitArgs proc_conformance) = Returns (Some cfg_conformance, None))
    as Hr by (vm_compute; reflexivity).
  assert (forall name, In name ["skip"; "conformance-image"; "busybox-image";
                                "kubeconfig"; "parallel"; "verbosity"; "output-dir"] ->
                       supplied proc_conformance name = false) as Hs.
  { intros name Hin. simpl in Hin.
    repeat (destruct Hin as [<-|Hin]; [vm_compute; reflexivity|]). destruct Hin. }
  destruct (InitArgs_defaults proc_conformance _ Hr Hf)
    as (c & wd & Hc & Hwd & _ & H1 & H2 & H3 & H4 & H5 & H6 & H7).
  injection Hc as <-. injection Hwd as <-.
  split; [exact Hf|]. split; [exact Hr|].
  refine (conj (H1 _) (conj (H2 _) (conj (H3 _) (conj (H4 _)
            (conj (H5 _) (conj (H6 _) (H7 _)))))));
    apply Hs; simpl; tauto.
Defined.

Lemma InitArgs_output_dir_witness :
  (supplied proc_conformance "output-dir" = false
   /\ result (run_InitArgs proc_conformance) = Returns (Some cfg_conformance, None)
   /\ os_Getwd proc_conformance = (OutputDir cfg_conformance, None))
  /\ (os_Getwd proc_no_cwd = ("", Some getwd_error)
      /\ run_InitArgs proc_no_cwd = Done (None, Some getwd_error) process_start).
Proof.
  assert (supplied proc_conformance "output-dir" = false) as Hs
    by (vm_compute; reflexivity).
  assert (result (run_InitArgs proc_conformance) = Returns (Some cfg_conformance, None))
    as Hr by (vm_compute; reflexivity).
  assert (os_Getwd proc_no_cwd = ("", Some getwd_error)) as Hwd by reflexivity.
  split.
  - split; [exact Hs|]. split; [exact Hr|].
    exact (proj1 InitArgs_output_dir proc_conformance _ _ Hr Hs).
  - split; [exact Hwd|].
    exact (proj2 InitArgs_output_dir proc_no_cwd _ _ Hwd).
Defined.

(** C8, as stated, fails for [--parallel=0]: [InitArgs] returns a record
    whose parallelism is 0. *)
Lemma InitArgs_parallel_counterexample :
  result (run_InitArgs proc_parallel_zero) = Returns (Some cfg_parallel_zero, None)
  /\ Parallel cfg_parallel_zero = 0
  /\ ~ 1 <= Parallel cfg_parallel_zero.
Proof.
  split; [vm_compute; reflexivity|]. split; [reflexivity|]. simpl. lia.
Qed.

Lemma ValidateArgs_version_failure_witness :
  ServerVersion_answer (ClientSet cluster_down) = (None, Some connection_refused)
  /\ result (run_ValidateArgs fs_absent None cluster_down local_config cfg_fresh_dir)
     = Exits 1
  /\ trace_of (run_ValidateArgs fs_absent None cluster_down local_config cfg_fresh_dir)
     = [EvServerVersion;
        EvLog "Error fetching server version: dial tcp 127.0.0.1:6443: connect: connection refused"].
Proof.
  assert (ServerVersion_answer (ClientSet cluster_down) = (None, Some connection_refused))
    as Hv by reflexivity.
  destruct (ValidateArgs_version_failure fs_absent None cluster_down local_config
              cfg_fresh_dir _ _ Hv) as (Hexit & Htrace & _).
  split; [exact Hv|]. split; [exact Hexit|exact Htrace].
Defined.

(** C5, as stated, fails when the version query fails: the skip
    expression is not empty, and the only line logged is the failure
    message. *)
Lemma ValidateArgs_skip_line_counterexample :
  Skip cfg_skip_serial = "[Serial]"
  /\ log_lines (trace_of (run_ValidateArgs fs_absent None cluster_down local_config
                                           cfg_skip_serial))
     = ["Error fetching server version: dial tcp 127.0.0.1:6443: connect: connection refused"]
  /\ Forall (fun l => is_skipping_line l = false)
            (log_lines (trace_of (run_ValidateArgs fs_absent None cluster_down
                                                   local_config cfg_skip_serial))).
Proof.
  split; [reflexivity|]. split; [vm_compute; reflexivity|].
  vm_compute. repeat constructor.
Qed.

Lemma ValidateArgs_skip_line_witness :
  (Skip cfg_fresh_dir = ""
   /\ Forall (fun l => is_skipping_line l = false)
             (log_lines (trace_of (run_ValidateArgs fs_absent None cluster_up
                                                    local_config cfg_fresh_dir))))
  /\ (Skip cfg_skip_serial <> ""
      /\ ServerVersion_answer (ClientSet cluster_up) = (Some "v1.28.0", None)
      /\ "Skipping tests : '[Serial]'"
           ∈ log_lines (trace_of (run_ValidateArgs fs_absent None cluster_up
                                                   local_config cfg_skip_serial))).
Proof.
  assert (Skip cfg_fresh_dir = "") as H1 by reflexivity.
  assert (Skip cfg_skip_serial <> "") as H2 by (simpl; discriminate).
  assert (ServerVersion_answer (ClientSet cluster_up) = (Some "v1.28.0", None)) as Hv
    by reflexivity.
  split.
  - split; [exact H1|].
    exact (proj1 (ValidateArgs_skip_line fs_absent None cluster_up local_config
                    cfg_fresh_dir) H1).
  - split; [exact H2|]. split; [exact Hv|].
    exact (proj2 (ValidateArgs_skip_line fs_absent None cluster_up local_config
                    cfg_skip_serial) _ H2 Hv).
Defined.


Lemma ValidateArgs_log_order_witness :
  ServerVersion_answer (ClientSet cluster_up) = (Some "v1.28.0", None)
  /\ log_lines (trace_of (run_ValidateArgs fs_absent None cluster_up local_config
                                           cfg_skip_serial))
     = [ "API endpoint : https://127.0.0.1:6443";
         "Server version : v1.28.0";
         "Running tests : '[Conformance]'";
         "Skipping tests : '[Serial]'";
         "Using conformance image : 'registry.k8s.io/conformance:v1.28.0'";
         "Using busybox image : 'registry.k8s.io/e2e-test-images/busybox:1.36.1-1'";
         "Test framework will start '1' threads and use verbosity '4'" ].
Proof.
  assert (ServerVersion_answer (ClientSet cluster_up) = (Some "v1.28.0", None)) as Hv
    by reflexivity.
  split; [exact Hv|].
  destruct (ValidateArgs_log_order fs_absent None cluster_up local_config
              cfg_skip_serial _ Hv) as (rest & Hl & Hrest).
  rewrite Hl. destruct Hrest as [->|(e & He & _)]; [reflexivity|discriminate He].
Defined.

Lemma ValidateArgs_stat_other_error_witness :
  EvStat "/tmp/out/logs"
    ∈ trace_of (run_ValidateArgs fs_denied None cluster_up local_config cfg_fresh_dir)
  /\ os_IsNotExist (Some (PathError "stat" "/tmp/out/logs" (Errno EACCES))) = false
  /\ result (run_ValidateArgs fs_denied None cluster_up local_config cfg_fresh_dir)
     = Returns tt
  /\ mkdir_calls (trace_of (run_ValidateArgs fs_denied None cluster_up local_config
                                             cfg_fresh_dir)) = [].
Proof.
  assert (EvStat (OutputDir cfg_fresh_dir)
            ∈ trace_of (run_ValidateArgs fs_denied None cluster_up local_config
                                         cfg_fresh_dir)) as Hin.
  { vm_compute. repeat first [apply list_elem_of_here | apply list_elem_of_further]. }
  assert (Stat_answer fs_denied (OutputDir cfg_fresh_dir)
          = Some (PathError "stat" "/tmp/out/logs" (Errno EACCES))) as Hs
    by reflexivity.
  assert (os_IsNotExist (Some (PathError "stat" "/tmp/out/logs" (Errno EACCES))) = false)
    as He by reflexivity.
  destruct (ValidateArgs_stat_other_error fs_denied None cluster_up local_config
              cfg_fresh_dir _ Hin Hs He) as (Hret & Hcalls & _).
  split; [exact Hin|]. split; [exact He|]. split; [exact Hret|exact Hcalls].
Defined.


End Examples.

(** * Further properties *)

(** ** Slices of strings *)

Lemma len_cons c s : len (String c s) = 1 + len s.
Proof. unfold len. simpl String.length. lia. Qed.

Lemma len_nonneg s : 0 <= len s.
Proof. unfold len. lia. Qed.

Lemma app_String c (s t : string) : String c s ++ t = String c (s ++ t).
Proof. reflexivity. Qed.

Lemma app_Empty (t : string) : "" ++ t = t.
Proof. reflexivity. Qed.

Lemma length_string_app (s t : string) :
  String.length (s ++ t) = (String.length s + String.length t)%nat.
Proof.
  induction s as [|c s IH]; [done|].
  rewrite app_String. simpl String.length. by rewrite IH.
Qed.

Lemma string_app_assoc (s t u : string) : (s ++ t) ++ u = s ++ t ++ u.
Proof.
  induction s as [|c s IH]; [done|]. rewrite !app_String. by rewrite IH.
Qed.

Lemma substring_0_0 s : substring 0 0 s = "".
Proof. by destruct s. Qed.

Lemma substring_0_length s : substring 0 (String.length s) s = s.
Proof. induction s as [|c s IH]; simpl; [done|]. by rewrite IH. Qed.

Lemma slice_from_0 s : slice_from s 0 = s.
Proof. unfold slice_from. rewrite Nat.sub_0_r. apply substring_0_length. Qed.

Lemma slice_from_S c s n : slice_from (String c s) (S n) = slice_from s n.
Proof. reflexivity. Qed.

Lemma slice_from_app s t : slice_from (s ++ t) (String.length s) = t.
Proof.
  induction s as [|c s IH]; simpl String.length.
  - apply slice_from_0.
  - by rewrite app_String, slice_from_S.
Qed.

Lemma slice_to_app s t : slice_to (s ++ t) (String.length s) = s.
Proof.
  unfold slice_to. induction s as [|c s IH].
  - apply substring_0_0.
  - rewrite app_String. simpl. by rewrite IH.
Qed.

Lemma byte_at_app s c t : byte_at (s ++ String c t) (String.length s) = c.
Proof.
  unfold byte_at. induction s as [|c' s IH]; [done|].
  rewrite app_String. simpl. exact IH.
Qed.

(** ** The scan for the equals sign *)

Lemma find_equals_found pre name v fuel :
  flag.contains_equals name = false ->
  (String.length name < fuel)%nat ->
  flag.find_equals (pre ++ name ++ String "=" v) (String.length pre) fuel
  = Some (String.length pre + String.length name)%nat.
Proof.
  revert pre fuel. induction name as [|c name IH]; intros pre fuel Hc Hf.
  - destruct fuel as [|fuel]; [simpl in Hf; lia|]. simpl flag.find_equals.
    rewrite app_Empty, byte_at_app.
    assert ((Z.of_nat (String.length pre) <? len (pre ++ String "=" v)) = true) as ->.
    { apply Z.ltb_lt. unfold len. rewrite length_string_app. simpl. lia. }
    simpl. f_equal. lia.
  - destruct fuel as [|fuel]; [simpl in Hf; lia|]. simpl flag.find_equals.
    simpl in Hc. apply orb_false_elim in Hc as [Hc1 Hc2].
    rewrite app_String, byte_at_app, Hc1.
    assert ((Z.of_nat (String.length pre) <? len (pre ++ String c (name ++ String "=" v)))
            = true) as ->.
    { apply Z.ltb_lt. unfold len. rewrite length_string_app. simpl. lia. }
    replace (pre ++ String c (name ++ String "=" v))
      with ((pre ++ String c "") ++ name ++ String "=" v)
      by (by rewrite string_app_assoc).
    replace (S (String.length pre)) with (String.length (pre ++ String c ""))
      by (rewrite length_string_app; simpl; lia).
    rewrite IH; [|done|simpl in Hf; lia].
    f_equal. rewrite length_string_app. simpl. lia.
Qed.

Lemma find_equals_none pre name fuel :
  flag.contains_equals name = false ->
  flag.find_equals (pre ++ name) (String.length pre) fuel = None.
Proof.
  revert pre fuel. induction name as [|c name IH]; intros pre fuel Hc.
  - destruct fuel as [|fuel]; [done|]. simpl flag.find_equals.
    assert ((Z.of_nat (String.length pre) <? len (pre ++ "")) = false) as ->; [|done].
    apply Z.ltb_ge. unfold len. rewrite length_string_app. simpl. lia.
  - destruct fuel as [|fuel]; [done|]. simpl flag.find_equals.
    simpl in Hc. apply orb_false_elim in Hc as [Hc1 Hc2].
    rewrite byte_at_app, Hc1.
    destruct (_ <? _); [|done].
    replace (pre ++ String c name) with ((pre ++ String c "") ++ name)
      by (by rewrite string_app_assoc).
    replace (S (String.length pre)) with (String.length (pre ++ String c ""))
      by (rewrite length_string_app; simpl; lia).
    by apply IH.
Qed.

Lemma slice_from_value name v :
  slice_from (name ++ String "=" v) (S (String.length name)) = v.
Proof.
  induction name as [|c name IH].
  - rewrite app_Empty. simpl String.length. rewrite slice_from_S. apply slice_from_0.
  - rewrite app_String. simpl String.length. by rewrite slice_from_S.
Qed.

(** ** The first argument of a flag *)

(** An argument made of one or two minus signs and a body that starts
    with another byte is taken for a flag, and the body is its name part. *)
Lemma flag_argument_facts two c0 x :
  (strconv.byte c0 =? strconv.byte "-") = false ->
  let s := dashes two ++ String c0 x in
  ((len s <? 2) || negb (strconv.byte (byte_at s 0) =? strconv.byte "-")) = false
  /\ (strconv.byte (byte_at s 1) =? strconv.byte "-") = two
  /\ (two && (len s =? 2)) = false
  /\ slice_from s (if two then 2%nat else 1%nat) = String c0 x.
Proof.
  intros Hc s. subst s.
  assert (forall a b y, (len (String a (String b y)) <? 2) = false) as Hlen.
  { intros a b y. apply Z.ltb_ge. rewrite !len_cons. pose proof (len_nonneg y). lia. }
  destruct two; cbn [dashes].
  - change ("--" ++ String c0 x) with (String "-" (String "-" (String c0 x))).
    rewrite Hlen. split; [done|]. split; [done|]. split.
    + apply Z.eqb_neq. rewrite !len_cons. pose proof (len_nonneg x). lia.
    + rewrite !slice_from_S. apply slice_from_0.
  - change ("-" ++ String c0 x) with (String "-" (String c0 x)).
    rewrite Hlen. split; [done|]. split; [exact Hc|]. split; [done|].
    rewrite slice_from_S. apply slice_from_0.
Qed.

Lemma name_part_facts c0 x :
  (strconv.byte c0 =? strconv.byte "-") = false ->
  (strconv.byte c0 =? strconv.byte "=") = false ->
  ((len (String c0 x) =? 0)
   || (strconv.byte (byte_at (String c0 x) 0) =? strconv.byte "-")
   || (strconv.byte (byte_at (String c0 x) 0) =? strconv.byte "=")) = false.
Proof.
  intros H1 H2. change (byte_at (String c0 x) 0) with c0. rewrite H1, H2.
  rewrite !orb_false_r. apply Z.eqb_neq. rewrite len_cons. pose proof (len_nonneg x). lia.
Qed.

Lemma find_equals_name c0 name' v :
  flag.contains_equals name' = false ->
  flag.find_equals (String c0 (name' ++ String "=" v)) 1
    (String.length (String c0 (name' ++ String "=" v)))
  = Some (S (String.length name')).
Proof.
  intros Hc.
  change (String c0 (name' ++ String "=" v)) with (String c0 "" ++ name' ++ String "=" v).
  change 1%nat with (String.length (String c0 "")) at 1.
  rewrite find_equals_found; [done|done|].
  rewrite !length_string_app. simpl. lia.
Qed.

Lemma find_equals_bare c0 name' :
  flag.contains_equals name' = false ->
  flag.find_equals (String c0 name') 1 (String.length (String c0 name')) = None.
Proof.
  intros Hc.
  change (String c0 name') with (String c0 "" ++ name').
  change 1%nat with (String.length (String c0 "")) at 1.
  by apply find_equals_none.
Qed.

(** ** One option *)

(** [parseOne] on an option: the value, whichever way it is spelled, is
    stored in the cell of the flag, the flag is recorded as set and the
    option's arguments are consumed; an integer that does not parse is
    an error. *)
Lemma parseOne_option F c pd ac sp name v rest fl :
  plain_name name = true ->
  F !! name = Some fl ->
  flag.parseOne (memory c pd ac F (render_option (sp, name, v) ++ rest)) =
  match flag.value fl with
  | flag.stringValue p =>
      Done (true, None) (memory (store_string p v c) pd (<[name := fl]> ac) F rest)
  | flag.intValue p =>
      let '(n, err) := strconv.ParseInt v 0 strconv.IntSize in
      match err with
      | None =>
          Done (true, None) (memory (store_int p n c) pd (<[name := fl]> ac) F rest)
      | Some e =>
          Done (false, Some (flag.invalid_value v name e))
               (memory (store_int p n c) pd ac F rest)
      end
  end.
Proof.
  intros Hplain HF.
  destruct name as [|c0 name']; [discriminate|].
  simpl in Hplain. apply andb_prop in Hplain as [Hminus Heq].
  apply negb_true_iff in Hminus. apply negb_true_iff in Heq.
  apply orb_false_elim in Heq as [Heq0 Heq'].
  unfold flag.parseOne. go_unfold. unfold memory.
  cbn [flag.CommandLine flag.args flag.cfg flag.formal].
  destruct sp as [two|two]; cbn [render_option app].
  - change (dashes two ++ String c0 name' ++ "=" ++ v)
      with (dashes two ++ String c0 (name' ++ String "=" v)).
    destruct (flag_argument_facts two c0 (name' ++ String "=" v) Hminus)
      as (H1 & H2 & H3 & H4).
    rewrite H1, H2, H3, H4. cbv iota.
    rewrite (name_part_facts c0 _ Hminus Heq0). cbv iota.
    rewrite (find_equals_name c0 name' v Heq'). cbv iota beta.
    change (String c0 (name' ++ String "=" v)) with (String c0 name' ++ String "=" v).
    change (S (String.length name')) with (String.length (String c0 name')).
    rewrite slice_to_app, slice_from_value, HF.
    unfold flag.Value_Set. go_unfold.
    destruct (flag.value fl) as [p|p]; [reflexivity|].
    destruct (strconv.ParseInt v 0 strconv.IntSize) as [n [e|]]; reflexivity.
  - destruct (flag_argument_facts two c0 name' Hminus) as (H1 & H2 & H3 & H4).
    rewrite H1, H2, H3, H4. cbv iota.
    rewrite (name_part_facts c0 _ Hminus Heq0). cbv iota.
    rewrite (find_equals_bare c0 name' Heq'). cbv iota beta.
    rewrite HF.
    unfold flag.Value_Set. go_unfold.
    destruct (flag.value fl) as [p|p]; [reflexivity|].
    destruct (strconv.ParseInt v 0 strconv.IntSize) as [n [e|]]; reflexivity.
Qed.

(** [parseOne] on an option whose name is not registered: the usage
    request for [help] and [h], an error for any other name. *)
Lemma parseOne_unregistered F c pd ac sp name v rest :
  plain_name name = true ->
  F !! name = None ->
  exists m',
    flag.parseOne (memory c pd ac F (render_option (sp, name, v) ++ rest))
    = Done (false,
            Some (if String.eqb name "help" || String.eqb name "h" then flag.ErrHelp
                  else flag.provided_but_not_defined name)) m'.
Proof.
  intros Hplain HF.
  destruct name as [|c0 name']; [discriminate|].
  simpl in Hplain. apply andb_prop in Hplain as [Hminus Heq].
  apply negb_true_iff in Hminus. apply negb_true_iff in Heq.
  apply orb_false_elim in Heq as [Heq0 Heq'].
  unfold flag.parseOne. go_unfold. unfold memory.
  cbn [flag.CommandLine flag.args flag.cfg flag.formal].
  destruct sp as [two|two]; cbn [render_option app].
  - change (dashes two ++ String c0 name' ++ "=" ++ v)
      with (dashes two ++ String c0 (name' ++ String "=" v)).
    destruct (flag_argument_facts two c0 (name' ++ String "=" v) Hminus)
      as (H1 & H2 & H3 & H4).
    rewrite H1, H2, H3, H4. cbv iota.
    rewrite (name_part_facts c0 _ Hminus Heq0). cbv iota.
    rewrite (find_equals_name c0 name' v Heq'). cbv iota beta.
    change (String c0 (name' ++ String "=" v)) with (String c0 name' ++ String "=" v).
    change (S (String.length name')) with (String.length (String c0 name')).
    rewrite slice_to_app, HF.
    destruct (String.eqb _ "help" || String.eqb _ "h"); eexists; reflexivity.
  - destruct (flag_argument_facts two c0 name' Hminus) as (H1 & H2 & H3 & H4).
    rewrite H1, H2, H3, H4. cbv iota.
    rewrite (name_part_facts c0 _ Hminus Heq0). cbv iota.
    rewrite (find_equals_bare c0 name' Heq'). cbv iota beta.
    rewrite HF.
    destruct (String.eqb _ "help" || String.eqb _ "h"); eexists; reflexivity.
Qed.

(** [parseOne] where parsing stops: nothing is assigned and no error is
    raised; only the terminator [--] is consumed. *)
Lemma parseOne_stops F c pd ac tail :
  stops_parsing tail = true ->
  exists tail',
    flag.parseOne (memory c pd ac F tail) = Done (false, None) (memory c pd ac F tail').
Proof.
  intros Hstop. unfold flag.parseOne. go_unfold. unfold memory.
  cbn [flag.CommandLine flag.args].
  destruct tail as [|s rest]; [by eexists|].
  simpl in Hstop.
  destruct ((len s <? 2) || negb (strconv.byte (byte_at s 0) =? strconv.byte "-"))
    eqn:Hflag; [by eexists|].
  simpl in Hstop. apply String.eqb_eq in Hstop as ->. by eexists.
Qed.

(** [parseOne] on a registered flag that is the last argument and has no
    value: the flag needs an argument. *)
Lemma parseOne_missing_value F c pd ac two name fl :
  plain_name name = true ->
  F !! name = Some fl ->
  exists m',
    flag.parseOne (memory c pd ac F [dashes two ++ name])
    = Done (false, Some (flag.needs_an_argument name)) m'.
Proof.
  intros Hplain HF.
  destruct name as [|c0 name']; [discriminate|].
  simpl in Hplain. apply andb_prop in Hplain as [Hminus Heq].
  apply negb_true_iff in Hminus. apply negb_true_iff in Heq.
  apply orb_false_elim in Heq as [Heq0 Heq'].
  unfold flag.parseOne. go_unfold. unfold memory.
  cbn [flag.CommandLine flag.args flag.cfg flag.formal].
  destruct (flag_argument_facts two c0 name' Hminus) as (H1 & H2 & H3 & H4).
  rewrite H1, H2, H3, H4. cbv iota.
  rewrite (name_part_facts c0 _ Hminus Heq0). cbv iota.
  rewrite (find_equals_bare c0 name' Heq'). cbv iota beta.
  rewrite HF. by eexists.
Qed.

(** ** Names and the flag table *)

Lemma flag_of_name_Some name val :
  flag_of_name name = Some val -> (name, val) ∈ flag_table /\ plain_name name = true.
Proof.
  unfold flag_of_name, flag_table. cbn [flag_of_name_in].
  repeat match goal with
         | |- context [String.eqb ?a name] =>
             destruct (String.eqb_spec a name) as [<-|_];
             [intros [= <-]; split; [in_table|reflexivity]|]
         end.
  discriminate.
Qed.

Lemma flag_of_name_None name val :
  flag_of_name name = None -> (name, val) ∉ flag_table.
Proof.
  unfold flag_of_name, flag_table. intros Hnone Hin.
  repeat (apply elem_of_cons in Hin as [Hin|Hin];
          [injection Hin as -> _; vm_compute in Hnone; discriminate|]).
  by apply elem_of_nil in Hin.
Qed.

Lemma registered_flag_of_name F name :
  registered_table F ->
  match flag_of_name name with
  | Some val => exists fl, F !! name = Some fl /\ flag.value fl = val
  | None => F !! name = None
  end.
Proof.
  intros [HF1 HF2]. destruct (flag_of_name name) as [val|] eqn:Hn.
  - apply flag_of_name_Some in Hn as [Hin _]. by apply HF2.
  - destruct (F !! name) as [fl|] eqn:Hl; [|done].
    apply HF1 in Hl. by apply flag_of_name_None with (val := flag.value fl) in Hn.
Qed.

(** ** A list of options *)

(** The loop reads a list of options from left to right: it goes on
    from the record they make, with their names recorded as set, or it ends
    the process at the first one that is refused. *)
Lemma Parse_loop_options_prefix F os rest c pd ac :
  registered_table F ->
  Forall (fun name => plain_name name = true) (option_names os) ->
  match expected os c with
  | Parsed c' =>
      exists ac',
        flag.Parse_loop (memory c pd ac F (render_options os ++ rest))
        = flag.Parse_loop (memory c' pd ac' F rest)
        /\ forall N, is_Some (ac' !! N) <-> is_Some (ac !! N) \/ N ∈ option_names os
  | Rejected code =>
      exists m',
        flag.Parse_loop (memory c pd ac F (render_options os ++ rest)) = Exited code m'
  end.
Proof.
  intros HF Hplain. revert c ac Hplain.
  induction os as [|[[sp name] v] os IH]; intros c ac Hplain.
  - simpl. exists ac. split; [done|].
    intros N. split; [by left|]. intros [?|Hin]; [done|]. by apply elem_of_nil in Hin.
  - change (option_names ((sp, name, v) :: os)) with (name :: option_names os) in Hplain.
    apply Forall_cons in Hplain as [Hname Hplain].
    change (render_options ((sp, name, v) :: os))
      with (render_option (sp, name, v) ++ render_options os)%list.
    rewrite <- (assoc_L app). rewrite Parse_loop_unfold.
    cbn [expected].
    pose proof (registered_flag_of_name F name HF) as Hreg.
    destruct (flag_of_name name) as [val|].
    + destruct Hreg as (fl & Hfl & <-).
      rewrite (parseOne_option F c pd ac sp name v _ fl Hname Hfl).
      assert (forall (ac' : gmap string flag.Flag) (N : string),
                (is_Some (ac' !! N) <-> is_Some (<[name := fl]> ac !! N) \/ N ∈ option_names os) ->
                (is_Some (ac' !! N) <->
                 is_Some (ac !! N) \/ N ∈ option_names ((sp, name, v) :: os))) as Hdom.
      { intros ac' N ->.
        change (option_names ((sp, name, v) :: os)) with (name :: option_names os).
        rewrite elem_of_cons. destruct (decide (name = N)) as [->|Hne].
        - rewrite lookup_insert_eq. split; [intros _; right; by left|].
          intros _. left. by eexists.
        - rewrite lookup_insert_ne by done. split.
          + intros [?|?]; [by left|right; by right].
          + intros [?|[?|?]]; [by left|congruence|by right]. }
      destruct (flag.value fl) as [p|p].
      * specialize (IH (store_string p v c) (<[name := fl]> ac) Hplain).
        destruct (expected os (store_string p v c)) as [c'|code]; [|exact IH].
        destruct IH as (ac' & Hl & Hd). exists ac'. split; [exact Hl|].
        intros N. apply Hdom, Hd.
      * destruct (strconv.ParseInt v 0 strconv.IntSize) as [n [e|]].
        { by eexists. }
        specialize (IH (store_int p n c) (<[name := fl]> ac) Hplain).
        destruct (expected os (store_int p n c)) as [c'|code]; [|exact IH].
        destruct IH as (ac' & Hl & Hd). exists ac'. split; [exact Hl|].
        intros N. apply Hdom, Hd.
    + destruct (parseOne_unregistered F c pd ac sp name v
                  (render_options os ++ rest)%list Hname Hreg) as (m' & ->).
      exists m'. by destruct (String.eqb name "help" || String.eqb name "h").
Qed.

(** ** [InitArgs] on a list of options *)

Section InitArgs_options.

Context {consts : PackageConstants}.

(** The loop of [flag.Parse] as [InitArgs] starts it. *)
Lemma run_InitArgs_loop proc wd prog a :
  os_Getwd proc = (wd, None) ->
  os_Args proc = prog :: a ->
  exists F,
    registered_table F
    /\ run_InitArgs proc =
       match flag.Parse_loop (memory (defaults wd) true ∅ F a) with
       | Done _ m =>
           if String.eqb (Focus (flag.cfg m)) "" then Done (None, Some missing_focus) m
           else Done (Some (flag.cfg m), None) m
       | Exited code m => Exited code m
       | Panicked m => Panicked m
       end.
Proof.
  intros Hwd Hargs. destruct (run_InitArgs_parse _ _ Hwd) as (F & HF & Hrun).
  exists F. split; [done|]. by rewrite Hrun, Hargs.
Qed.

Lemma run_InitArgs_options proc wd prog os tail :
  os_Getwd proc = (wd, None) ->
  os_Args proc = (prog :: render_options os ++ tail)%list ->
  Forall (fun name => plain_name name = true) (option_names os) ->
  stops_parsing tail = true ->
  match expected os (defaults wd) with
  | Parsed c =>
      exists m,
        run_InitArgs proc
        = Done (if String.eqb (Focus c) "" then (None, Some missing_focus)
                else (Some c, None)) m
        /\ flag.cfg m = c
        /\ forall N, is_Some (flag.actual (flag.CommandLine m) !! N) <-> N ∈ option_names os
  | Rejected code => exists m, run_InitArgs proc = Exited code m
  end.
Proof.
  intros Hwd Hargs Hplain Hstop.
  destruct (run_InitArgs_loop _ _ _ _ Hwd Hargs) as (F & HF & ->).
  pose proof (Parse_loop_options_prefix F os tail (defaults wd) true ∅ HF Hplain) as Hl.
  destruct (expected os (defaults wd)) as [c|code].
  - destruct Hl as (ac & -> & Hd).
    destruct (parseOne_stops F c true ac tail Hstop) as (tail' & Hp).
    rewrite Parse_loop_unfold, Hp. cbn [memory flag.cfg].
    exists (memory c true ac F tail'). split; [by destruct (String.eqb _ _)|].
    split; [done|]. intros N. cbn. rewrite Hd, lookup_empty.
    split; [intros [[? ?]|?]; done|by right].
  - destruct Hl as (m & ->). by exists m.
Qed.

(** X1. A call of [InitArgs] that returns gives either a record and no
    error, or no record and an error, which is the missing-focus error or
    the error of [os.Getwd]. *)
Theorem InitArgs_record_or_error proc r e :
  result (run_InitArgs proc) = Returns (r, e) ->
  (exists cfg, r = Some cfg /\ e = None)
  \/ (r = None
      /\ (e = Some missing_focus
          \/ exists wd err, os_Getwd proc = (wd, Some err) /\ e = Some err)).
Proof.
  intros Hres.
  destruct (run_InitArgs proc) as [r' m| |] eqn:Hrun; try discriminate.
  injection Hres as ->.
  destruct (run_InitArgs_returns _ _ _ Hrun)
    as [(wd & err & Hwd & Hr & _)|(wd & F & _ & _ & _ & Hr)].
  - injection Hr as -> ->. right. split; [done|]. right. eauto.
  - destruct (String.eqb _ _); injection Hr as -> ->; [|left; eauto].
    right. split; [done|]. by left.
Qed.

(** X2. Every record that [InitArgs] returns has a focus that is not
    empty. *)
Theorem InitArgs_focus_not_empty proc cfg e :
  result (run_InitArgs proc) = Returns (Some cfg, e) ->
  Focus cfg <> "".
Proof.
  intros Hres.
  destruct (run_InitArgs proc) as [r' m| |] eqn:Hrun; try discriminate.
  injection Hres as ->.
  destruct (run_InitArgs_returns _ _ _ Hrun)
    as [(wd & err & _ & Hr & _)|(wd & F & _ & _ & _ & Hr)]; [discriminate|].
  destruct (String.eqb_spec (Focus (flag.cfg m)) "") as [|Hne]; [discriminate|].
  by injection Hr as -> _.
Qed.

(** X3. [InitArgs] on a list of options, each written [-name=value] or
    [-name value] with one or two minus signs, followed by nothing, by an
    argument that is not a flag, or by [--]: the values are stored from left
    to right in the cells of their names, a later value replacing an earlier
    one, and the record that results is returned if its focus is not
    empty; the first unregistered name or unreadable integer ends the
    process, with status 0 for [help] and [h] and 2 otherwise. Whatever
    follows the arguments at which parsing stops has no effect. *)
Theorem InitArgs_reads_options proc wd prog os tail :
  os_Getwd proc = (wd, None) ->
  os_Args proc = (prog :: render_options os ++ tail)%list ->
  Forall (fun name => plain_name name = true) (option_names os) ->
  stops_parsing tail = true ->
  result (run_InitArgs proc) =
  match expected os (defaults wd) with
  | Parsed c =>
      Returns (if String.eqb (Focus c) "" then (None, Some missing_focus)
               else (Some c, None))
  | Rejected code => Exits code
  end.
Proof.
  intros Hwd Hargs Hplain Hstop.
  pose proof (run_InitArgs_options proc wd prog os tail Hwd Hargs Hplain Hstop) as H.
  destruct (expected os (defaults wd)) as [c|code].
  - destruct H as (m & -> & _). reflexivity.
  - destruct H as (m & ->). reflexivity.
Qed.

(** X4. After such a list of options, all of them accepted, the options
    that [flag.Parse] has recorded as set are those whose names occur in the
    list. *)
Theorem InitArgs_supplied_iff proc wd prog os tail c N :
  os_Getwd proc = (wd, None) ->
  os_Args proc = (prog :: render_options os ++ tail)%list ->
  Forall (fun name => plain_name name = true) (option_names os) ->
  stops_parsing tail = true ->
  expected os (defaults wd) = Parsed c ->
  supplied proc N = true <-> N ∈ option_names os.
Proof.
  intros Hwd Hargs Hplain Hstop Hexp.
  pose proof (run_InitArgs_options proc wd prog os tail Hwd Hargs Hplain Hstop) as H.
  rewrite Hexp in H. destruct H as (m & Hrun & _ & Hd).
  unfold supplied, final_memory. rewrite Hrun, <- Hd.
  destruct (flag.actual (flag.CommandLine m) !! N) as [fl|]; split.
  - intros _. by eexists.
  - done.
  - discriminate.
  - by intros [? ?].
Qed.

(** X5. The eight options written as [--name=value] come back in the
    fields they are bound to: focus, skip, the two images, the kubeconfig
    path and the output directory as the very texts, parallel and verbosity
    as the numbers that [strconv.ParseInt] reads in theirs. *)
Theorem InitArgs_round_trip proc wd prog f s ci bi k p v o np nv :
  os_Getwd proc = (wd, None) ->
  os_Args proc = [ prog;
                   "--focus=" ++ f; "--skip=" ++ s;
                   "--conformance-image=" ++ ci; "--busybox-image=" ++ bi;
                   "--kubeconfig=" ++ k;
                   "--parallel=" ++ p; "--verbosity=" ++ v;
                   "--output-dir=" ++ o ] ->
  f <> "" ->
  strconv.ParseInt p 0 strconv.IntSize = (np, None) ->
  strconv.ParseInt v 0 strconv.IntSize = (nv, None) ->
  result (run_InitArgs proc)
  = Returns (Some {| Focus := f; Skip := s; ConformanceImage := ci; BusyboxImage := bi;
                     Kubeconfig := k; Parallel := np; Verbosity := nv; OutputDir := o |},
             None).
Proof.
  intros Hwd Hargs Hf Hp Hv.
  pose proof (run_InitArgs_options proc wd prog
    [ (equals_form true, "focus", f); (equals_form true, "skip", s);
      (equals_form true, "conformance-image", ci);
      (equals_form true, "busybox-image", bi);
      (equals_form true, "kubeconfig", k);
      (equals_form true, "parallel", p); (equals_form true, "verbosity", v);
      (equals_form true, "output-dir", o) ] [] Hwd) as H.
  cbn [expected] in H.
  change (flag_of_name "focus") with (Some (flag.stringValue addr_Focus)) in H.
  change (flag_of_name "skip") with (Some (flag.stringValue addr_Skip)) in H.
  change (flag_of_name "conformance-image")
    with (Some (flag.stringValue addr_ConformanceImage)) in H.
  change (flag_of_name "busybox-image")
    with (Some (flag.stringValue addr_BusyboxImage)) in H.
  change (flag_of_name "kubeconfig") with (Some (flag.stringValue addr_Kubeconfig)) in H.
  change (flag_of_name "parallel") with (Some (flag.intValue addr_Parallel)) in H.
  change (flag_of_name "verbosity") with (Some (flag.intValue addr_Verbosity)) in H.
  change (flag_of_name "output-dir") with (Some (flag.stringValue addr_OutputDir)) in H.
  cbn [store_string store_int defaults] in H. rewrite Hp in H. cbn [store_int] in H.
  rewrite Hv in H. cbn [store_string store_int Focus] in H.
  destruct H as (m & -> & _).
  - rewrite Hargs. reflexivity.
  - repeat constructor.
  - reflexivity.
  - destruct (String.eqb_spec f ""); [done|reflexivity].
Qed.

(** X6. When the first argument is not a flag (it is shorter than two
    bytes or does not start with a minus sign) or is the terminator [--],
    no option is read, whatever comes after it: [InitArgs] returns the
    missing-focus error. *)
Theorem InitArgs_stops_at_first_argument proc wd prog tail :
  os_Getwd proc = (wd, None) ->
  os_Args proc = prog :: tail ->
  stops_parsing tail = true ->
  result (run_InitArgs proc) = Returns (None, Some missing_focus).
Proof.
  intros Hwd Hargs Hstop.
  assert (Forall (fun name => plain_name name = true) (option_names [])) as Hplain
    by constructor.
  pose proof (run_InitArgs_options proc wd prog [] tail Hwd Hargs Hplain Hstop) as H.
  cbn [expected defaults Focus] in H. destruct H as (m & -> & _). reflexivity.
Qed.

(** X7. [InitArgs] ends the process with no other status than 0 and 2,
    and only once the working directory is known; it panics exactly when
    the working directory is known and [os.Args] is empty. *)
Theorem InitArgs_exits_and_panics proc :
  (forall code,
      result (run_InitArgs proc) = Exits code ->
      (code = 0 \/ code = 2) /\ snd (os_Getwd proc) = None)
  /\ (result (run_InitArgs proc) = Panics <->
      snd (os_Getwd proc) = None /\ os_Args proc = []).
Proof.
  destruct (os_Getwd proc) as [wd [e|]] eqn:Hwd.
  - rewrite (run_InitArgs_getwd_error _ _ _ Hwd). split; [discriminate|].
    split; [discriminate|]. by intros [? _].
  - destruct (run_InitArgs_parse _ _ Hwd) as (F & _ & ->).
    destruct (os_Args proc) as [|a0 a]; [split; [discriminate|done]|].
    destruct (Parse_loop_no_panic (parse_memory (defaults wd) F true a))
      as (m & [-> | [-> | ->]]).
    + split; [by destruct (String.eqb _ _)|].
      split; [by destruct (String.eqb _ _)|]. by intros [_ ?].
    + split; [intros code [= <-]; split; [by left|done]|].
      split; [discriminate|]. by intros [_ ?].
    + split; [intros code [= <-]; split; [by right|done]|].
      split; [discriminate|]. by intros [_ ?].
Qed.

(** X8. A registered option that comes last, after options that are all
    accepted, and has no value ends the process with status 2. *)
Theorem InitArgs_missing_value proc wd prog os c two name :
  os_Getwd proc = (wd, None) ->
  os_Args proc = (prog :: render_options os ++ [(dashes two ++ name)%string])%list ->
  Forall (fun name => plain_name name = true) (option_names os) ->
  expected os (defaults wd) = Parsed c ->
  is_Some (flag_of_name name) ->
  result (run_InitArgs proc) = Exits 2.
Proof.
  intros Hwd Hargs Hplain Hexp [val Hname].
  destruct (run_InitArgs_loop _ _ _ _ Hwd Hargs) as (F & HF & ->).
  pose proof (Parse_loop_options_prefix F os [dashes two ++ name] (defaults wd)
                true ∅ HF Hplain) as Hl.
  rewrite Hexp in Hl. destruct Hl as (ac & -> & _).
  pose proof (registered_flag_of_name F name HF) as Hreg. rewrite Hname in Hreg.
  destruct Hreg as (fl & Hfl & _).
  apply flag_of_name_Some in Hname as [_ Hpl].
  destruct (parseOne_missing_value F c true ac two name fl Hpl Hfl) as (m' & Hp).
  rewrite Parse_loop_unfold, Hp. reflexivity.
Qed.

(** Registering a name that [CommandLine] already has panics, after the
    default is stored through the pointer. *)
Lemma StringVar_redefined p name val usage m fl :
  String.prefix "-" name = false ->
  flag.contains_equals name = false ->
  flag.formal (flag.CommandLine m) !! name = Some fl ->
  flag.StringVar p name val usage m = Panicked (flag.set_cfg (store_string p val) m).
Proof.
  intros Hp He Hf. unfold flag.StringVar, flag.Var. go_unfold.
  rewrite Hp, He. cbn [flag.formal flag.CommandLine flag.set_cfg].
  by rewrite Hf.
Qed.

(** X13. [InitArgs] can be called once: a second call in the same
    process, after a first that registered its flags and returned, panics
    when it registers [focus] again on [flag.CommandLine]. *)
Theorem InitArgs_twice_panics proc1 proc2 r m wd1 wd2 :
  run_InitArgs proc1 = Done r m ->
  os_Getwd proc1 = (wd1, None) ->
  os_Getwd proc2 = (wd2, None) ->
  result (InitArgs proc2 m) = Panics.
Proof.
  intros Hrun Hwd1 Hwd2.
  destruct (run_InitArgs_returns _ _ _ Hrun)
    as [(wd & err & Hwd & _)|(wd & F & _ & HF & (Hformal & _) & _)]; [congruence|].
  destruct HF as [_ HF].
  destruct (HF "focus" (flag.stringValue addr_Focus)) as (fl & Hfl & _); [in_table|].
  unfold InitArgs. rewrite Hwd2.
  erewrite bind_Done by reflexivity.
  unfold mbind, M_bind.
  erewrite StringVar_redefined; [reflexivity|reflexivity|reflexivity|].
  cbn [flag.set_cfg flag.CommandLine]. by rewrite Hformal.
Qed.

End InitArgs_options.

(** ** [ValidateArgs]: when it returns and what it touches *)

Section ValidateArgs_extras.

Context {vp : VersionPackage}.

Lemma stat_calls_reached_stat host version cfg t :
  stat_calls (reached_stat host version cfg ++ t)%list = OutputDir cfg :: stat_calls t.
Proof.
  unfold reached_stat, informational_lines. by destruct (String.eqb (Skip cfg) "").
Qed.

Lemma no_ServerVersion_after_start host version cfg t :
  EvServerVersion ∉ t ->
  exists t', (reached_stat host version cfg ++ t)%list = EvServerVersion :: t'
             /\ EvServerVersion ∉ t'.
Proof.
  intros Ht. unfold reached_stat.
  exists (map EvLog (informational_lines host version cfg)
          ++ [EvStat (OutputDir cfg)] ++ t)%list.
  split; [by rewrite <- !(assoc_L app)|].
  intros [Hin|Hin]%elem_of_app.
  - apply list_elem_of_fmap in Hin as (l & ? & _). discriminate.
  - apply elem_of_cons in Hin as [?|?]; [discriminate|done].
Qed.

(** A version query that answers with neither a version nor an error
    makes the call panic on the nil version, after the first log line. *)
Lemma run_ValidateArgs_nil_version fs err client config cfg :
  ServerVersion_answer (ClientSet client) = (None, None) ->
  run_ValidateArgs fs err client config cfg
  = Panicked [EvServerVersion; EvLog ("API endpoint : " ++ Host config)].
Proof.
  intros Hv. unfold run_ValidateArgs, ValidateArgs, ServerVersion, log_Printf.
  go_unfold. by rewrite Hv.
Qed.

(** X9. [ValidateArgs] returns exactly when the version query succeeds
    and the output directory either is not reported as missing or is
    created; otherwise the process ends, always with status 1: because the
    version query failed or because the directory could not be created. *)
Theorem ValidateArgs_returns_iff fs err client config cfg :
  (result (run_ValidateArgs fs err client config cfg) = Returns tt <->
   (exists v, ServerVersion_answer (ClientSet client) = (Some v, None))
   /\ (os_IsNotExist (Stat_answer fs (OutputDir cfg)) = false
       \/ MkdirAll_answer fs (OutputDir cfg) perm_0755 = None))
  /\ (forall code,
        result (run_ValidateArgs fs err client config cfg) = Exits code ->
        code = 1
        /\ ((exists sv e, ServerVersion_answer (ClientSet client) = (sv, Some e))
            \/ (os_IsNotExist (Stat_answer fs (OutputDir cfg)) = true
                /\ exists e, MkdirAll_answer fs (OutputDir cfg) perm_0755 = Some e))).
Proof.
  destruct (ServerVersion_answer (ClientSet client)) as [[v|] [e|]] eqn:Hv.
  - rewrite (run_ValidateArgs_failure _ _ _ _ _ _ _ Hv). split.
    + split; [discriminate|]. by intros [[? ?] _].
    + intros code [= <-]. split; [done|]. left. eauto.
  - rewrite (run_ValidateArgs_success _ _ _ _ _ _ Hv).
    destruct (os_IsNotExist _); [destruct (MkdirAll_answer _ _ _) as [e|]|]; split.
    + split; [discriminate|]. intros [_ [?|?]]; discriminate.
    + intros code [= <-]. split; [done|]. right. eauto.
    + split; [intros _|done]. split; [eauto|by right].
    + discriminate.
    + split; [intros _|done]. split; [eauto|by left].
    + discriminate.
  - rewrite (run_ValidateArgs_failure _ _ _ _ _ _ _ Hv). split.
    + split; [discriminate|]. by intros [[? ?] _].
    + intros code [= <-]. split; [done|]. left. eauto.
  - rewrite (run_ValidateArgs_nil_version _ _ _ _ _ Hv).
    split; [split; [discriminate|by intros [[? ?] _]]|]. discriminate.
Qed.

(** X10. [ValidateArgs] touches the file system at the output directory
    only: it checks at most once whether the directory exists, and only
    after the cluster has given its version; it asks at most once for a
    directory to be made, that one with mode 0755, and only after the check
    has answered with a not-exist error. *)
Theorem ValidateArgs_file_system_calls fs err client config cfg :
  let t := trace_of (run_ValidateArgs fs err client config cfg) in
  (stat_calls t = [] \/ stat_calls t = [OutputDir cfg])
  /\ (mkdir_calls t = [] \/ mkdir_calls t = [(OutputDir cfg, perm_0755)])
  /\ (stat_calls t <> [] ->
      exists v, ServerVersion_answer (ClientSet client) = (Some v, None))
  /\ (mkdir_calls t <> [] ->
      stat_calls t = [OutputDir cfg]
      /\ os_IsNotExist (Stat_answer fs (OutputDir cfg)) = true).
Proof.
  intros t. subst t.
  destruct (ServerVersion_answer (ClientSet client)) as [[v|] [e|]] eqn:Hv.
  - rewrite (run_ValidateArgs_failure _ _ _ _ _ _ _ Hv). cbn.
    split; [by left|]. split; [by left|]. done.
  - rewrite (run_ValidateArgs_success _ _ _ _ _ _ Hv).
    destruct (os_IsNotExist _); [destruct (MkdirAll_answer _ _ _) as [e|]|];
      cbn [trace_of].
    + rewrite stat_calls_reached_stat, mkdir_calls_reached_stat. cbn.
      split; [by right|]. split; [by right|]. split; [eauto|done].
    + rewrite stat_calls_reached_stat, mkdir_calls_reached_stat. cbn.
      split; [by right|]. split; [by right|]. split; [eauto|done].
    + rewrite <- (app_nil_r (reached_stat _ _ _)).
      rewrite stat_calls_reached_stat, mkdir_calls_reached_stat. cbn.
      split; [by right|]. split; [by left|]. split; [eauto|done].
  - rewrite (run_ValidateArgs_failure _ _ _ _ _ _ _ Hv). cbn.
    split; [by left|]. split; [by left|]. done.
  - rewrite (run_ValidateArgs_nil_version _ _ _ _ _ Hv). cbn.
    split; [by left|]. split; [by left|]. done.
Qed.

(** X11. Every call of [ValidateArgs] begins by asking the cluster for
    its version, and asks once. *)
Theorem ValidateArgs_asks_version_first fs err client config cfg :
  exists t,
    trace_of (run_ValidateArgs fs err client config cfg) = EvServerVersion :: t
    /\ EvServerVersion ∉ t.
Proof.
  assert (forall l : string, EvServerVersion ∉ [EvLog l]) as Hlog.
  { intros l [?|Hin]%elem_of_cons; [discriminate|]. by apply elem_of_nil in Hin. }
  destruct (ServerVersion_answer (ClientSet client)) as [[v|] [e|]] eqn:Hv.
  - rewrite (run_ValidateArgs_failure _ _ _ _ _ _ _ Hv). eexists. split; [reflexivity|].
    apply Hlog.
  - rewrite (run_ValidateArgs_success _ _ _ _ _ _ Hv).
    destruct (os_IsNotExist _); [destruct (MkdirAll_answer _ _ _) as [e|]|];
      cbn [trace_of].
    + apply no_ServerVersion_after_start.
      intros [?|Hin]%elem_of_cons; [discriminate|]. by apply Hlog in Hin.
    + apply no_ServerVersion_after_start.
      intros [?|Hin]%elem_of_cons; [discriminate|]. by apply elem_of_nil in Hin.
    + rewrite <- (app_nil_r (reached_stat _ _ _)).
      apply no_ServerVersion_after_start, not_elem_of_nil.
  - rewrite (run_ValidateArgs_failure _ _ _ _ _ _ _ Hv). eexists. split; [reflexivity|].
    apply Hlog.
  - rewrite (run_ValidateArgs_nil_version _ _ _ _ _ Hv). eexists.
    split; [reflexivity|]. apply Hlog.
Qed.

End ValidateArgs_extras.

(** ** From [InitArgs] to [ValidateArgs] *)

Section InitArgs_then_ValidateArgs.

Context {consts : PackageConstants} {vp : VersionPackage}.

Lemma log_lines_success fs err client config cfg v :
  ServerVersion_answer (ClientSet client) = (Some v, None) ->
  exists rest,
    log_lines (trace_of (run_ValidateArgs fs err client config cfg))
    = (informational_lines (Host config) (GoSyntax v) cfg ++ rest)%list
    /\ Forall (fun l => is_skipping_line l = false) rest.
Proof.
  intros Hv. rewrite (run_ValidateArgs_success _ _ _ _ _ _ Hv).
  destruct (os_IsNotExist _); [destruct (MkdirAll_answer _ _ _) as [e|]|];
    cbn [trace_of].
  - rewrite log_lines_reached_stat. eexists. split; [reflexivity|]. repeat constructor.
  - rewrite log_lines_reached_stat. eexists. split; [reflexivity|]. constructor.
  - rewrite <- (app_nil_r (reached_stat _ _ _)), log_lines_reached_stat.
    eexists. split; [reflexivity|]. constructor.
Qed.

Lemma stat_calls_success fs err client config cfg v :
  ServerVersion_answer (ClientSet client) = (Some v, None) ->
  stat_calls (trace_of (run_ValidateArgs fs err client config cfg)) = [OutputDir cfg].
Proof.
  intros Hv. rewrite (run_ValidateArgs_success _ _ _ _ _ _ Hv).
  destruct (os_IsNotExist _); [destruct (MkdirAll_answer _ _ _) as [e|]|];
    cbn [trace_of]; [| |rewrite <- (app_nil_r (reached_stat _ _ _))];
    by rewrite stat_calls_reached_stat.
Qed.

(** X12. The record that [InitArgs] returns, handed to [ValidateArgs]
    with a cluster that gives its version: the log names a focus that is
    not empty; it has no "Skipping tests" line when skip was not supplied;
    it shows the built-in images when the image options were not supplied
    and 1 thread with verbosity 4 when parallel and verbosity were not; and
    the directory checked is the working directory when output-dir was not
    supplied. *)
Theorem InitArgs_then_ValidateArgs proc cfg e fs err client config v :
  result (run_InitArgs proc) = Returns (Some cfg, e) ->
  ServerVersion_answer (ClientSet client) = (Some v, None) ->
  let t := trace_of (run_ValidateArgs fs err client config cfg) in
  Focus cfg <> ""
  /\ ("Running tests : '" ++ Focus cfg ++ "'") ∈ log_lines t
  /\ (supplied proc "skip" = false ->
      Forall (fun l => is_skipping_line l = false) (log_lines t))
  /\ (supplied proc "conformance-image" = false ->
      ("Using conformance image : '" ++ containerImage ++ "'") ∈ log_lines t)
  /\ (supplied proc "busybox-image" = false ->
      ("Using busybox image : '" ++ busyboxImage ++ "'") ∈ log_lines t)
  /\ (supplied proc "parallel" = false ->
      supplied proc "verbosity" = false ->
      "Test framework will start '1' threads and use verbosity '4'" ∈ log_lines t)
  /\ (supplied proc "output-dir" = false ->
      stat_calls t = [fst (os_Getwd proc)]).
Proof.
  intros Hres Hv t. subst t.
  destruct (run_InitArgs proc) as [r' m| |] eqn:Hrun; try discriminate.
  injection Hres as ->.
  destruct (run_InitArgs_returns _ _ _ Hrun)
    as [(wd & err' & _ & Hr & _)|(wd & F & Hwd & HF & HI & Hr)]; [discriminate|].
  destruct (String.eqb_spec (Focus (flag.cfg m)) "") as [|Hfocus]; [discriminate|].
  injection Hr as -> ->.
  pose proof (fun N val Hin Hs =>
    not_supplied_default _ _ _ _ _ N val Hrun HF HI Hin Hs) as Hdef.
  destruct (log_lines_success fs err client config (flag.cfg m) v Hv)
    as (rest & -> & Hrest).
  rewrite (stat_calls_success _ _ _ _ _ _ Hv), Hwd.
  assert (forall l, l ∈ informational_lines (Host config) (GoSyntax v) (flag.cfg m) ->
                    l ∈ (informational_lines (Host config) (GoSyntax v) (flag.cfg m)
                         ++ rest)%list) as Hin.
  { intros l Hl. apply elem_of_app. by left. }
  split; [exact Hfocus|]. split; [|split; [|split; [|split; [|split]]]].
  - apply Hin. unfold informational_lines. do 2 apply list_elem_of_further.
    apply list_elem_of_here.
  - intros Hs.
    specialize (Hdef _ (flag.stringValue addr_Skip) ltac:(in_table) Hs). simpl in Hdef.
    apply Forall_app. split; [|exact Hrest].
    apply informational_lines_not_skipping. congruence.
  - intros Hs.
    specialize (Hdef _ (flag.stringValue addr_ConformanceImage) ltac:(in_table) Hs).
    simpl in Hdef. injection Hdef as <-.
    apply Hin. unfold informational_lines.
    destruct (String.eqb (Skip (flag.cfg m)) ""); in_table.
  - intros Hs.
    specialize (Hdef _ (flag.stringValue addr_BusyboxImage) ltac:(in_table) Hs).
    simpl in Hdef. injection Hdef as <-.
    apply Hin. unfold informational_lines.
    destruct (String.eqb (Skip (flag.cfg m)) ""); in_table.
  - intros Hp Hvb.
    pose proof (Hdef _ (flag.intValue addr_Parallel) ltac:(in_table) Hp) as H1.
    pose proof (Hdef _ (flag.intValue addr_Verbosity) ltac:(in_table) Hvb) as H2.
    simpl in H1, H2. injection H1 as H1. injection H2 as H2.
    apply Hin. unfold informational_lines. rewrite H1, H2.
    destruct (String.eqb (Skip (flag.cfg m)) ""); in_table.
  - intros Hs.
    specialize (Hdef _ (flag.stringValue addr_OutputDir) ltac:(in_table) Hs).
    simpl in Hdef. injection Hdef as ->. reflexivity.
Qed.

End InitArgs_then_ValidateArgs.

(** * Reading the arguments back *)

(** ** Bytes and cuts *)

Lemma byte_inj a b : strconv.byte a = strconv.byte b -> a = b.
Proof.
  unfold strconv.byte. intros H%(inj Z.of_N).
  rewrite <- (ascii_N_embedding a), <- (ascii_N_embedding b). by rewrite H.
Qed.

Lemma byte_eqb_eq a b : (strconv.byte a =? strconv.byte b) = true -> a = b.
Proof. intros H%Z.eqb_eq. by apply byte_inj. Qed.

Lemma slice_to_S c s n : slice_to (String c s) (S n) = String c (slice_to s n).
Proof. reflexivity. Qed.

Lemma byte_at_S c s n : byte_at (String c s) (S n) = byte_at s n.
Proof. reflexivity. Qed.

(** A string is what is before a position, the byte there, and what is
    after. *)
Lemma string_cut_at s i :
  (i < String.length s)%nat ->
  s = slice_to s i ++ String (byte_at s i) (slice_from s (S i)).
Proof.
  revert s. induction i as [|i IH]; intros [|c s] Hi; simpl in Hi; try lia.
  - unfold slice_to. rewrite substring_0_0, app_Empty, slice_from_S, slice_from_0.
    reflexivity.
  - rewrite slice_to_S, byte_at_S, slice_from_S, app_String.
    f_equal. apply IH. lia.
Qed.

Lemma find_equals_Some name j fuel i :
  flag.find_equals name j fuel = Some i ->
  (i < String.length name)%nat
  /\ (strconv.byte (byte_at name i) =? strconv.byte "=") = true.
Proof.
  revert j. induction fuel as [|fuel IH]; intros j; simpl; [discriminate|].
  destruct (Z.of_nat j <? len name) eqn:Hlt; [|discriminate].
  destruct (strconv.byte (byte_at name j) =? strconv.byte "=") eqn:Hb.
  - intros [= <-]. split; [|done]. apply Z.ltb_lt in Hlt. unfold len in Hlt. lia.
  - apply IH.
Qed.

(** The names of the flag table are plain. *)
Lemma flag_table_plain N v : (N, v) ∈ flag_table -> plain_name N = true.
Proof.
  unfold flag_table. intros H.
  repeat (apply elem_of_cons in H as [H|H]; [by injection H as -> _|]).
  by apply elem_of_nil in H.
Qed.

(** ** One round, read back *)

(** A round of [parseOne] that has seen a flag has consumed the
    arguments of one option, in one of the four spellings, and the name
    is a registered one. *)
Lemma parseOne_seen_inversion m e m' :
  registered_table (flag.formal (flag.CommandLine m)) ->
  flag.parseOne m = Done (true, e) m' ->
  exists sp name v,
    flag.args (flag.CommandLine m)
    = (render_option (sp, name, v) ++ flag.args (flag.CommandLine m'))%list
    /\ plain_name name = true.
Proof.
  destruct m as [c [pd ac fo ar]]. cbn [flag.CommandLine flag.formal flag.args].
  intros [HF _]. unfold flag.parseOne. go_unfold.
  cbn [flag.CommandLine flag.formal flag.args].
  destruct ar as [|s rest]; [discriminate|].
  destruct ((len s <? 2) || negb (strconv.byte (byte_at s 0) =? strconv.byte "-"))
    eqn:Hflag; [discriminate|].
  apply orb_false_elim in Hflag as [Hlen Hdash].
  apply negb_false_iff, byte_eqb_eq in Hdash.
  destruct s as [|a [|b x]]; [discriminate Hlen|discriminate Hlen|].
  change (byte_at (String a (String b x)) 0) with a in Hdash. subst a.
  change (byte_at (String "-" (String b x)) 1) with b.
  assert (exists two body,
             (strconv.byte b =? strconv.byte "-") = two
             /\ String "-" (String b x) = dashes two ++ body
             /\ slice_from (String "-" (String b x)) (if two then 2%nat else 1%nat) = body)
    as (two & body & Htwo & Hs & Hbody).
  { destruct (strconv.byte b =? strconv.byte "-") eqn:Hb.
    - apply byte_eqb_eq in Hb as ->. exists true, x. split; [done|]. split; [done|].
      rewrite !slice_from_S. apply slice_from_0.
    - exists false, (String b x). split; [done|]. split; [done|].
      rewrite slice_from_S. apply slice_from_0. }
  rewrite Htwo, Hbody, Hs.
  destruct (two && _); [discriminate|].
  destruct (_ || _ || _); [discriminate|].
  destruct (flag.find_equals body 1 (String.length body)) as [i|] eqn:Hfe; cbv iota beta.
  - apply find_equals_Some in Hfe as [Hi Heq]. apply byte_eqb_eq in Heq.
    pose proof (string_cut_at body i Hi) as Hcut. rewrite Heq in Hcut.
    destruct (fo !! slice_to body i) as [fl|] eqn:Hfl;
      [|destruct (_ || _); discriminate].
    unfold flag.Value_Set. go_unfold.
    assert (plain_name (slice_to body i) = true) as Hplain.
    { apply HF in Hfl. by eapply flag_table_plain. }
    destruct (flag.value fl) as [p|p].
    + intros [= <- <-]. cbn [flag.CommandLine flag.args flag.set_CommandLine flag.set_cfg
                               flag.set_args].
      exists (equals_form two), (slice_to body i), (slice_from body (S i)).
      split; [|done]. cbn [render_option app]. by rewrite Hcut at 1.
    + destruct (strconv.ParseInt _ _ _) as [n [err|]]; [discriminate|].
      intros [= <- <-]. cbn [flag.CommandLine flag.args flag.set_CommandLine flag.set_cfg
                               flag.set_args].
      exists (equals_form two), (slice_to body i), (slice_from body (S i)).
      split; [|done]. cbn [render_option app]. by rewrite Hcut at 1.
  - destruct (fo !! body) as [fl|] eqn:Hfl; [|destruct (_ || _); discriminate].
    assert (plain_name body = true) as Hplain.
    { apply HF in Hfl. by eapply flag_table_plain. }
    destruct rest as [|v rest']; [discriminate|].
    unfold flag.Value_Set. go_unfold.
    destruct (flag.value fl) as [p|p].
    + intros [= <- <-]. cbn [flag.CommandLine flag.args flag.set_CommandLine flag.set_cfg
                               flag.set_args].
      by exists (separate_form two), body, v.
    + destruct (strconv.ParseInt _ _ _) as [n [err|]]; [discriminate|].
      intros [= <- <-]. cbn [flag.CommandLine flag.args flag.set_CommandLine flag.set_cfg
                               flag.set_args].
      by exists (separate_form two), body, v.
Qed.

(** A round that ends the loop without an error stands at arguments
    where parsing stops. *)
Lemma parseOne_stop_inversion m m' :
  flag.parseOne m = Done (false, None) m' ->
  stops_parsing (flag.args (flag.CommandLine m)) = true.
Proof.
  destruct m as [c [pd ac fo ar]]. cbn [flag.CommandLine flag.args].
  unfold flag.parseOne. go_unfold. cbn [flag.CommandLine flag.formal flag.args].
  destruct ar as [|s rest]; [done|]. cbn [stops_parsing].
  destruct ((len s <? 2) || negb (strconv.byte (byte_at s 0) =? strconv.byte "-"))
    eqn:Hflag; [done|].
  cbn [orb].
  destruct ((strconv.byte (byte_at s 1) =? strconv.byte "-") && (len s =? 2)) eqn:Hterm.
  - intros _. apply andb_prop in Hterm as [Hb Hl].
    apply orb_false_elim in Hflag as [Hlen Hdash].
    apply negb_false_iff, byte_eqb_eq in Hdash. apply byte_eqb_eq in Hb.
    destruct s as [|a [|b [|c' x]]]; try discriminate.
    + change (byte_at (String a (String b "")) 0) with a in Hdash.
      change (byte_at (String a (String b "")) 1) with b in Hb. by subst.
    + apply Z.eqb_eq in Hl. rewrite !len_cons in Hl. pose proof (len_nonneg x). lia.
  - destruct (_ || _ || _); [discriminate|].
    unfold flag.Value_Set. go_unfold.
    repeat (case_match; try discriminate).
Qed.

(** ** The loop, read back *)

(** Arguments from which the loop returns are a list of options
    followed by arguments at which parsing stops. *)
Lemma Parse_loop_inversion m m' :
  registered_table (flag.formal (flag.CommandLine m)) ->
  flag.Parse_loop m = Done tt m' ->
  exists os tail,
    flag.args (flag.CommandLine m) = (render_options os ++ tail)%list
    /\ Forall (fun name => plain_name name = true) (option_names os)
    /\ stops_parsing tail = true.
Proof.
  remember (length (flag.args (flag.CommandLine m))) as n eqn:Hn.
  revert m Hn. induction n as [n IH] using lt_wf_ind. intros m -> HF.
  rewrite Parse_loop_unfold.
  destruct (parseOne_cases m)
    as (seen & e & m1 & Hp & Hfo & _ & [(-> & _ & _)|(-> & -> & Hlt & _)]);
    rewrite Hp.
  - destruct e as [[]|]; try discriminate. intros _.
    exists [], (flag.args (flag.CommandLine m)). split; [done|]. split; [constructor|].
    by eapply parseOne_stop_inversion.
  - intros Hl.
    destruct (parseOne_seen_inversion m None m1 HF Hp) as (sp & name & v & Hargs & Hplain).
    rewrite <- Hfo in HF.
    destruct (IH _ Hlt m1 eq_refl HF Hl) as (os & tail & Hrest & Hnames & Hstop).
    exists ((sp, name, v) :: os), tail. split; [|split; [|done]].
    + rewrite Hargs, Hrest.
      change (render_options ((sp, name, v) :: os))
        with (render_option (sp, name, v) ++ render_options os)%list.
      by rewrite <- (assoc_L app).
    + change (option_names ((sp, name, v) :: os)) with (name :: option_names os).
      by constructor.
Qed.

(** ** The last value of an option *)

Lemma last_value_is_Some name os :
  is_Some (last_value name os) <-> name ∈ option_names os.
Proof.
  induction os as [|[[sp n] v] os IH].
  - simpl. split; [by intros [? ?]|]. intros H. by apply elem_of_nil in H.
  - change (option_names ((sp, n, v) :: os)) with (n :: option_names os).
    rewrite elem_of_cons, <- IH. cbn [last_value].
    destruct (last_value name os) as [s|].
    + split; [intros _; right|]; by eexists.
    + destruct (String.eqb_spec n name) as [->|Hne].
      * split; [by left|]. by eexists.
      * split; [by intros [? ?]|]. intros [?|[? ?]]; congruence.
Qed.

Lemma flag_of_name_parallel name p :
  flag_of_name name = Some (flag.intValue p) ->
  (name = "parallel" /\ p = addr_Parallel)
  \/ (name = "verbosity" /\ p = addr_Verbosity).
Proof.
  intros [Hin _]%flag_of_name_Some. unfold flag_table in Hin.
  repeat (apply elem_of_cons in Hin as [Hin|Hin];
          [injection Hin as -> Hp; first [discriminate Hp | subst p; tauto]|]).
  by apply elem_of_nil in Hin.
Qed.

(** In the record that a list of options makes, the parallelism is what
    [strconv.ParseInt] reads in the text of the last parallel option, and
    is left alone when there is none. *)
Lemma expected_parallel os c c' :
  expected os c = Parsed c' ->
  match last_value "parallel" os with
  | None => Parallel c' = Parallel c
  | Some s => strconv.ParseInt s 0 strconv.IntSize = (Parallel c', None)
  end.
Proof.
  revert c. induction os as [|[[sp n] v] os IH]; intros c; cbn [expected last_value].
  - by intros [= ->].
  - destruct (flag_of_name n) as [[p|p]|] eqn:Hn; [| |discriminate].
    + intros Hexp. specialize (IH _ Hexp).
      destruct (last_value "parallel" os) as [s|]; [exact IH|].
      destruct (String.eqb_spec n "parallel") as [->|_].
      * vm_compute in Hn. discriminate Hn.
      * rewrite IH. by destruct c, p.
    + destruct (strconv.ParseInt v 0 strconv.IntSize) as [k [err|]] eqn:Hk;
        [discriminate|].
      intros Hexp. specialize (IH _ Hexp).
      destruct (last_value "parallel" os) as [s|]; [exact IH|].
      destruct (flag_of_name_parallel n p Hn) as [[-> ->]|[-> ->]].
      * rewrite String.eqb_refl, IH. f_equal. by destruct c.
      * change (String.eqb "verbosity" "parallel") with false. cbv iota.
        rewrite IH. by destruct c.
Qed.

(** ** The parallelism that [InitArgs] returns *)

Section InitArgs_parallelism.

Context {consts : PackageConstants}.

(** C8 (amended). In a record that [InitArgs] returns, the parallelism
    is 1 when the parallel option was not supplied, and otherwise the
    number that [strconv.ParseInt] reads in the text of the last parallel
    option of the arguments: some 64-bit integer, with no lower bound of 1.
    The arguments of such a call are a list of options followed by
    arguments at which parsing stops, and the text is that of the last
    option named parallel in that list. *)
Theorem InitArgs_parallel proc cfg e :
  result (run_InitArgs proc) = Returns (Some cfg, e) ->
  (supplied proc "parallel" = false -> Parallel cfg = 1)
  /\ (supplied proc "parallel" = true ->
      exists s, strconv.ParseInt s 0 strconv.IntSize = (Parallel cfg, None))
  /\ - 2 ^ 63 <= Parallel cfg < 2 ^ 63
  /\ (exists prog os tail,
        os_Args proc = (prog :: render_options os ++ tail)%list
        /\ Forall (fun name => plain_name name = true) (option_names os)
        /\ stops_parsing tail = true)
  /\ (forall prog os tail,
        os_Args proc = (prog :: render_options os ++ tail)%list ->
        Forall (fun name => plain_name name = true) (option_names os) ->
        stops_parsing tail = true ->
        match last_value "parallel" os with
        | None => supplied proc "parallel" = false /\ Parallel cfg = 1
        | Some s =>
            supplied proc "parallel" = true
            /\ strconv.ParseInt s 0 strconv.IntSize = (Parallel cfg, None)
        end).
Proof.
  intros Hres.
  destruct (run_InitArgs proc) as [r' m| |] eqn:Hrun; try discriminate.
  injection Hres as ->.
  destruct (run_InitArgs_returns _ _ _ Hrun)
    as [(wd & e' & _ & ? & _)|(wd & F & Hwd & HF & HI & Hr)]; [done|].
  destruct (String.eqb_spec (Focus (flag.cfg m)) "") as [|Hfocus]; [done|].
  injection Hr as -> ->.
  assert (supplied proc "parallel" = false -> Parallel (flag.cfg m) = 1) as H1.
  { intros Hs.
    assert (("parallel", flag.intValue addr_Parallel) ∈ flag_table) as Hin by in_table.
    pose proof (not_supplied_default _ _ _ _ _ _ _ Hrun HF HI Hin Hs) as Hl.
    simpl in Hl. congruence. }
  assert (supplied proc "parallel" = true ->
          exists s, strconv.ParseInt s 0 strconv.IntSize
                    = (Parallel (flag.cfg m), None)) as H2.
  { unfold supplied. rewrite (final_memory_Done _ _ _ Hrun).
    destruct HI as (_ & _ & HI). intros Hs. apply HI.
    destruct (_ !! "parallel"); [eauto|discriminate]. }
  split; [done|]. split; [done|]. split; [|split].
  - destruct (supplied proc "parallel") eqn:Hs.
    + destruct (H2 eq_refl) as (s & Hp). by apply ParseInt_range in Hp.
    + rewrite (H1 eq_refl). lia.
  - destruct (run_InitArgs_parse _ _ Hwd) as (F' & HF' & Hrun').
    rewrite Hrun in Hrun'.
    destruct (os_Args proc) as [|prog a]; [discriminate|].
    destruct (flag.Parse_loop (parse_memory (defaults wd) F' true a))
      as [[] m1|code m1|m1] eqn:Hl; [|discriminate..].
    destruct (Parse_loop_inversion (parse_memory (defaults wd) F' true a) m1 HF' Hl)
      as (os & tail & Hargs & Hplain & Hstop).
    exists prog, os, tail. cbn [parse_memory flag.CommandLine flag.args] in Hargs.
    by rewrite Hargs.
  - intros prog os tail Hargs Hplain Hstop.
    pose proof (run_InitArgs_options proc wd prog os tail Hwd Hargs Hplain Hstop) as Ho.
    destruct (expected os (defaults wd)) as [c|code] eqn:Hexp;
      [|destruct Ho as (m2 & Hm2); congruence].
    destruct Ho as (m2 & Hrun2 & Hc & Hdom).
    rewrite Hrun in Hrun2.
    assert (m2 = m) as -> by (by destruct (String.eqb _ _); injection Hrun2).
    specialize (Hdom "parallel"). rewrite <- last_value_is_Some in Hdom.
    apply expected_parallel in Hexp. rewrite <- Hc in Hexp.
    unfold supplied. rewrite (final_memory_Done _ _ _ Hrun).
    destruct (last_value "parallel" os) as [s|].
    + split; [|exact Hexp].
      destruct (flag.actual _ !! "parallel"); [done|].
      destruct (proj2 Hdom) as [? ?]; [by eexists|discriminate].
    + split; [|exact Hexp].
      destruct (flag.actual _ !! "parallel") as [fl|]; [|done].
      destruct (proj1 Hdom) as [? ?]; [by eexists|discriminate].
Qed.

End InitArgs_parallelism.

(** * The further properties on concrete runs *)

Section More_examples.

Local Existing Instance example_constants.
Local Existing Instance example_version.

Lemma InitArgs_record_or_error_witness :
  result (run_InitArgs proc_conformance) = Returns (Some cfg_conformance, None)
  /\ ((exists cfg, Some cfg_conformance = Some cfg /\ @None error = None)
      \/ (Some cfg_conformance = None
          /\ (@None error = Some missing_focus
              \/ exists wd err,
                   os_Getwd proc_conformance = (wd, Some err) /\ None = Some err))).
Proof.
  assert (result (run_InitArgs proc_conformance) = Returns (Some cfg_conformance, None))
    as Hr by (vm_compute; reflexivity).
  split; [exact Hr|].
  exact (InitArgs_record_or_error proc_conformance _ _ Hr).
Defined.

Lemma InitArgs_focus_not_empty_witness :
  result (run_InitArgs proc_parallel_four) = Returns (Some cfg_parallel_four, None)
  /\ Focus cfg_parallel_four <> "".
Proof.
  assert (result (run_InitArgs proc_parallel_four)
          = Returns (Some cfg_parallel_four, None)) as Hr by (vm_compute; reflexivity).
  split; [exact Hr|].
  exact (InitArgs_focus_not_empty proc_parallel_four _ _ Hr).
Defined.

Lemma InitArgs_reads_options_witness :
  os_Args proc_spellings
  = ("hydrophone" :: render_options spelled_options ++ ["results"; "--focus=ignored"])%list
  /\ Forall (fun name => plain_name name = true) (option_names spelled_options)
  /\ stops_parsing ["results"; "--focus=ignored"] = true
  /\ result (run_InitArgs proc_spellings) = Returns (Some cfg_spellings, None).
Proof.
  assert (os_Getwd proc_spellings = ("/home/ci/run", None)) as Hwd by reflexivity.
  assert (os_Args proc_spellings
          = ("hydrophone" :: render_options spelled_options
               ++ ["results"; "--focus=ignored"])%list) as Hargs by reflexivity.
  assert (Forall (fun name => plain_name name = true) (option_names spelled_options))
    as Hplain by (repeat constructor).
  assert (stops_parsing ["results"; "--focus=ignored"] = true) as Hstop by reflexivity.
  split; [exact Hargs|]. split; [exact Hplain|]. split; [exact Hstop|].
  exact (InitArgs_reads_options proc_spellings _ _ _ _ Hwd Hargs Hplain Hstop).
Defined.

Lemma InitArgs_supplied_iff_witness :
  expected spelled_options (defaults "/home/ci/run") = Parsed cfg_spellings
  /\ (supplied proc_spellings "skip" = true <-> "skip" ∈ option_names spelled_options)
  /\ (supplied proc_spellings "kubeconfig" = true <->
      "kubeconfig" ∈ option_names spelled_options).
Proof.
  assert (os_Getwd proc_spellings = ("/home/ci/run", None)) as Hwd by reflexivity.
  assert (os_Args proc_spellings
          = ("hydrophone" :: render_options spelled_options
               ++ ["results"; "--focus=ignored"])%list) as Hargs by reflexivity.
  assert (Forall (fun name => plain_name name = true) (option_names spelled_options))
    as Hplain by (repeat constructor).
  assert (stops_parsing ["results"; "--focus=ignored"] = true) as Hstop by reflexivity.
  assert (expected spelled_options (defaults "/home/ci/run") = Parsed cfg_spellings)
    as Hexp by (vm_compute; reflexivity).
  split; [exact Hexp|]. split.
  - exact (InitArgs_supplied_iff proc_spellings _ _ _ _ _ "skip"
             Hwd Hargs Hplain Hstop Hexp).
  - exact (InitArgs_supplied_iff proc_spellings _ _ _ _ _ "kubeconfig"
             Hwd Hargs Hplain Hstop Hexp).
Defined.

Lemma InitArgs_round_trip_witness :
  strconv.ParseInt "0x10" 0 strconv.IntSize = (16, None)
  /\ strconv.ParseInt "-1" 0 strconv.IntSize = (-1, None)
  /\ result (run_InitArgs proc_all_options) = Returns (Some cfg_all_options, None).
Proof.
  assert (os_Getwd proc_all_options = ("/home/ci/run", None)) as Hwd by reflexivity.
  assert (strconv.ParseInt "0x10" 0 strconv.IntSize = (16, None)) as Hp
    by (vm_compute; reflexivity).
  assert (strconv.ParseInt "-1" 0 strconv.IntSize = (-1, None)) as Hv
    by (vm_compute; reflexivity).
  assert ("sig-node" <> "") as Hf by discriminate.
  split; [exact Hp|]. split; [exact Hv|].
  exact (InitArgs_round_trip proc_all_options "/home/ci/run" "hydrophone"
           "sig-node" "[Slow]" "example.org/conf:1" "example.org/bb:2"
           "/etc/kube/config" "0x10" "-1" "/var/tmp/out" 16 (-1)
           Hwd eq_refl Hf Hp Hv).
Defined.

Lemma InitArgs_stops_at_first_argument_witness :
  stops_parsing ["run"; "--focus=[Conformance]"] = true
  /\ result (run_InitArgs proc_positional) = Returns (None, Some missing_focus).
Proof.
  assert (os_Getwd proc_positional = ("/home/ci/run", None)) as Hwd by reflexivity.
  assert (stops_parsing ["run"; "--focus=[Conformance]"] = true) as Hstop by reflexivity.
  split; [exact Hstop|].
  exact (InitArgs_stops_at_first_argument proc_positional _ _ _ Hwd eq_refl Hstop).
Defined.

Lemma InitArgs_exits_and_panics_witness :
  result (run_InitArgs proc_unknown_flag) = Exits 2
  /\ (2 = 0 \/ 2 = 2)
  /\ snd (os_Getwd proc_unknown_flag) = None.
Proof.
  assert (result (run_InitArgs proc_unknown_flag) = Exits 2) as Hr
    by (vm_compute; reflexivity).
  split; [exact Hr|].
  exact (proj1 (InitArgs_exits_and_panics proc_unknown_flag) 2 Hr).
Defined.

Lemma InitArgs_missing_value_witness :
  os_Args proc_missing_value
  = ("hydrophone" :: render_options [(equals_form true, "focus", "sig-apps")]
       ++ [(dashes true ++ "skip")%string])%list
  /\ is_Some (flag_of_name "skip")
  /\ result (run_InitArgs proc_missing_value) = Exits 2.
Proof.
  assert (os_Getwd proc_missing_value = ("/home/ci/run", None)) as Hwd by reflexivity.
  assert (os_Args proc_missing_value
          = ("hydrophone" :: render_options [(equals_form true, "focus", "sig-apps")]
               ++ [(dashes true ++ "skip")%string])%list) as Hargs by reflexivity.
  assert (Forall (fun name => plain_name name = true)
                 (option_names [(equals_form true, "focus", "sig-apps")]))
    as Hplain by (repeat constructor).
  assert (is_Some (flag_of_name "skip")) as Hname by (by eexists).
  split; [exact Hargs|]. split; [exact Hname|].
  exact (InitArgs_missing_value proc_missing_value _ _ _ _ true "skip"
           Hwd Hargs Hplain eq_refl Hname).
Defined.

Lemma InitArgs_twice_panics_witness :
  (exists r m, run_InitArgs proc_conformance = Done r m
               /\ result (InitArgs proc_parallel_four m) = Panics).
Proof.
  destruct (run_InitArgs proc_conformance) as [r m|code m|m] eqn:Hrun;
    [|vm_compute in Hrun; discriminate Hrun..].
  exists r, m. split; [reflexivity|].
  exact (InitArgs_twice_panics proc_conformance proc_parallel_four r m
           "/home/ci/run" "/home/ci/run" Hrun eq_refl eq_refl).
Defined.

Lemma ValidateArgs_returns_iff_witness :
  result (run_ValidateArgs fs_absent None cluster_up local_config cfg_fresh_dir)
  = Returns tt
  /\ (result (run_ValidateArgs fs_read_only None cluster_up local_config cfg_fresh_dir)
      = Exits 1
      /\ os_IsNotExist (Stat_answer fs_read_only (OutputDir cfg_fresh_dir)) = true).
Proof.
  assert (result (run_ValidateArgs fs_read_only None cluster_up local_config cfg_fresh_dir)
          = Exits 1) as Hexit by (vm_compute; reflexivity).
  split.
  - apply (proj1 (ValidateArgs_returns_iff fs_absent None cluster_up local_config
                    cfg_fresh_dir)).
    split; [by eexists|]. by right.
  - split; [exact Hexit|].
    destruct (proj2 (ValidateArgs_returns_iff fs_read_only None cluster_up local_config
                       cfg_fresh_dir) 1 Hexit) as (_ & [(sv & e & He)|(Hne & _)]).
    + discriminate He.
    + exact Hne.
Defined.

Lemma ValidateArgs_file_system_calls_witness :
  mkdir_calls (trace_of (run_ValidateArgs fs_absent None cluster_up local_config
                                          cfg_fresh_dir)) <> []
  /\ stat_calls (trace_of (run_ValidateArgs fs_absent None cluster_up local_config
                                            cfg_fresh_dir)) = ["/tmp/out/logs"]
  /\ os_IsNotExist (Stat_answer fs_absent "/tmp/out/logs") = true.
Proof.
  assert (mkdir_calls (trace_of (run_ValidateArgs fs_absent None cluster_up local_config
                                                  cfg_fresh_dir)) <> []) as Hm
    by (vm_compute; discriminate).
  split; [exact Hm|].
  destruct (ValidateArgs_file_system_calls fs_absent None cluster_up local_config
              cfg_fresh_dir) as (_ & _ & _ & H).
  exact (H Hm).
Defined.

Lemma InitArgs_then_ValidateArgs_witness :
  result (run_InitArgs proc_conformance) = Returns (Some cfg_conformance, None)
  /\ ServerVersion_answer (ClientSet cluster_up) = (Some "v1.28.0", None)
  /\ "Running tests : '[Conformance]'"
       ∈ log_lines (trace_of (run_ValidateArgs fs_present None cluster_up local_config
                                               cfg_conformance))
  /\ "Test framework will start '1' threads and use verbosity '4'"
       ∈ log_lines (trace_of (run_ValidateArgs fs_present None cluster_up local_config
                                               cfg_conformance))
  /\ stat_calls (trace_of (run_ValidateArgs fs_present None cluster_up local_config
                                            cfg_conformance)) = ["/home/ci/run"].
Proof.
  assert (result (run_InitArgs proc_conformance) = Returns (Some cfg_conformance, None))
    as Hr by (vm_compute; reflexivity).
  assert (ServerVersion_answer (ClientSet cluster_up) = (Some "v1.28.0", None)) as Hv
    by reflexivity.
  destruct (InitArgs_then_ValidateArgs proc_conformance cfg_conformance None fs_present
              None cluster_up local_config _ Hr Hv)
    as (_ & Hrun & _ & _ & _ & Hthreads & Hstat).
  split; [exact Hr|]. split; [exact Hv|]. split; [exact Hrun|]. split.
  - apply Hthreads; vm_compute; reflexivity.
  - apply Hstat. vm_compute. reflexivity.
Defined.

Lemma InitArgs_parallel_witness :
  result (run_InitArgs proc_parallel_four) = Returns (Some cfg_parallel_four, None)
  /\ supplied proc_parallel_four "parallel" = true
  /\ (exists s, strconv.ParseInt s 0 strconv.IntSize = (4, None))
  /\ - 2 ^ 63 <= Parallel cfg_parallel_four < 2 ^ 63
  /\ os_Args proc_parallel_four
     = ("hydrophone"
        :: render_options [ (separate_form true, "focus", "sig-apps");
                            (separate_form false, "parallel", "4");
                            (equals_form true, "skip", "[Serial]") ] ++ [])%list
  /\ last_value "parallel" [ (separate_form true, "focus", "sig-apps");
                             (separate_form false, "parallel", "4");
                             (equals_form true, "skip", "[Serial]") ] = Some "4"
  /\ strconv.ParseInt "4" 0 strconv.IntSize = (Parallel cfg_parallel_four, None).
Proof.
  assert (result (run_InitArgs proc_parallel_four)
          = Returns (Some cfg_parallel_four, None)) as Hr by (vm_compute; reflexivity).
  assert (supplied proc_parallel_four "parallel" = true) as Hs
    by (vm_compute; reflexivity).
  assert (Forall (fun name => plain_name name = true)
            (option_names [ (separate_form true, "focus", "sig-apps");
                            (separate_form false, "parallel", "4");
                            (equals_form true, "skip", "[Serial]") ])) as Hplain
    by (repeat constructor).
  destruct (InitArgs_parallel proc_parallel_four _ _ Hr) as (_ & H2 & H3 & _ & H5).
  split; [exact Hr|]. split; [exact Hs|]. split; [exact (H2 Hs)|].
  split; [exact H3|]. split; [reflexivity|]. split; [reflexivity|].
  exact (proj2 (H5 "hydrophone"
                  [ (separate_form true, "focus", "sig-apps");
                    (separate_form false, "parallel", "4");
                    (equals_form true, "skip", "[Serial]") ] [] eq_refl Hplain eq_refl)).
Defined.

End More_examples.
